(** * A shallow embedding of the [log] package (a facade over zap)

    The package configures a zap logger ([Zap], [NewZapCore],
    [newWriteSyncer], [logLevel]), wraps it in [baseLogger] and exposes
    derivation ([WithName], [WithValues], [AddCallerSkip], [WithContext])
    and a lazily built process-wide default.

    Layout of the development:
    - Go values and strings ([iface], [strings_ToLower]);
    - the parts of zapcore, zap, lumberjack and context the package calls,
      as small modules named after the Go packages;
    - the package itself, in [Section log], over an explicit store of
      [*zap.Logger] and [*baseLogger] objects;
    - the properties. *)

From Stdlib Require Import ZArith Ascii String Lia.
From stdpp Require Import base option list strings.

#[local] Set Warnings "-register-all".

Local Open Scope string_scope.
Local Open Scope list_scope.

(** ** Go values *)

(** Addresses of heap objects ([*zap.Logger], [*baseLogger]). *)
Abbreviation loc := nat.

(** A value of type [interface{}], by dynamic type.  [VField] is a
    [zap.Field], [VSlice] a [[]interface{}], [VLogger] a [*baseLogger]
    (the implementation of [Logger] in this package). *)
Inductive iface : Type :=
| VNil
| VString (s : string)
| VInt (n : Z)
| VBool (b : bool)
| VField (key : string) (val : iface)
| VSlice (elems : list iface)
| VLogger (p : loc).

(** ** strings.ToLower

    Go lowers an all-ASCII string byte by byte and sends any other string
    through [unicode.ToLower] rune by rune.  The ASCII path is written
    out; the Unicode tables are a parameter of the functions below. *)

Definition byte_of (c : ascii) : N := N_of_ascii c.

Definition is_ascii_byte (c : ascii) : bool := (byte_of c <? 128)%N.

Definition is_upper_byte (c : ascii) : bool :=
  (65 <=? byte_of c)%N && (byte_of c <=? 90)%N.

Definition lower_byte (c : ascii) : ascii :=
  if is_upper_byte c then ascii_of_N (byte_of c + 32) else c.

Fixpoint isASCII (s : string) : bool :=
  match s with
  | EmptyString => true
  | String c s' => is_ascii_byte c && isASCII s'
  end.

Fixpoint hasUpper (s : string) : bool :=
  match s with
  | EmptyString => false
  | String c s' => is_upper_byte c || hasUpper s'
  end.

Fixpoint lower_bytes (s : string) : string :=
  match s with
  | EmptyString => EmptyString
  | String c s' => String (lower_byte c) (lower_bytes s')
  end.

Definition strings_ToLower (unicode_lower : string -> string) (s : string) : string :=
  if isASCII s then (if hasUpper s then lower_bytes s else s)
  else unicode_lower s.

(** ** lumberjack *)

Module lumberjack.

(** The rotating file writer; only the fields the package sets. *)
Record Logger := {
  Filename : string;
  MaxSize : Z;
  MaxBackups : Z;
  MaxAge : Z;
  Compress : bool;
  LocalTime : bool
}.

End lumberjack.

(** ** zapcore *)

Module zapcore.

Local Open Scope Z_scope.

(** [type Level int8] *)
Definition Level := Z.

Definition DebugLevel : Level := -1.
Definition InfoLevel : Level := 0.
Definition WarnLevel : Level := 1.
Definition ErrorLevel : Level := 2.
Definition DPanicLevel : Level := 3.
Definition PanicLevel : Level := 4.
Definition FatalLevel : Level := 5.

(** The two enablers the package builds: a predicate
    ([zap.LevelEnablerFunc]) and a threshold ([zap.AtomicLevel], and a
    bare [Level], both enabled from the threshold upwards). *)
Inductive LevelEnabler :=
| LevelEnablerFunc (f : Level -> bool)
| AtomicLevel (l : Level).

Definition Enabled (e : LevelEnabler) (lev : Level) : bool :=
  match e with
  | LevelEnablerFunc f => f lev
  | AtomicLevel l => l <=? lev
  end.

(** A structured field: key and value (the field type follows the
    dynamic type of the value). *)
Record Field := { Key : string; Interface : iface }.

Inductive Encoder := ConsoleEncoder | JSONEncoder.

(** A write syncer is the list of streams it fans out to. *)
Inductive Writer :=
| os_Stdout
| File (hook : lumberjack.Logger).

Definition WriteSyncer := list Writer.

Definition AddSync (w : Writer) : WriteSyncer := [w].

Definition NewMultiWriteSyncer (a b : WriteSyncer) : WriteSyncer := a ++ b.

(** [ioCore]: encoder, output, enabler, and the fields bound by [With]
    (zap keeps them in the core's encoder). *)
Record Core := {
  enc : Encoder;
  out : WriteSyncer;
  level : LevelEnabler;
  context : list Field
}.

Definition NewCore (e : Encoder) (ws : WriteSyncer) (enab : LevelEnabler) : Core :=
  {| enc := e; out := ws; level := enab; context := [] |}.

(** [Core.With]: a copy of the core with the fields added. *)
Definition With (c : Core) (fields : list Field) : Core :=
  {| enc := enc c; out := out c; level := level c;
     context := context c ++ fields |}.

(** [NewTee]: the cores side by side. *)
Definition NewTee (cores : list Core) : list Core := cores.

End zapcore.

(** ** zap: loggers as values *)

Module zap.

Definition Field := zapcore.Field.

(** [zap.Any] *)
Definition Any (key : string) (val : iface) : Field :=
  {| zapcore.Key := key; zapcore.Interface := val |}.

Record Logger := {
  core : list zapcore.Core;
  name : string;
  addCaller : bool;
  callerSkip : Z;
  addStack : zapcore.LevelEnabler
}.

Inductive Option :=
| AddCaller
| AddCallerSkip (skip : Z)
| AddStacktrace (lvl : zapcore.LevelEnabler).

Definition apply (l : Logger) (o : Option) : Logger :=
  match o with
  | AddCaller =>
      {| core := core l; name := name l; addCaller := true;
         callerSkip := callerSkip l; addStack := addStack l |}
  | AddCallerSkip skip =>
      {| core := core l; name := name l; addCaller := addCaller l;
         callerSkip := (callerSkip l + skip)%Z; addStack := addStack l |}
  | AddStacktrace lvl =>
      {| core := core l; name := name l; addCaller := addCaller l;
         callerSkip := callerSkip l; addStack := lvl |}
  end.

(** [zap.New]: no stack trace below [FatalLevel + 1] until an option
    says otherwise. *)
Definition New (c : list zapcore.Core) (opts : list Option) : Logger :=
  fold_left apply opts
    {| core := c; name := ""; addCaller := false; callerSkip := 0%Z;
       addStack := zapcore.AtomicLevel (zapcore.FatalLevel + 1)%Z |}.

(** The copy [Named] makes when the segment is not empty. *)
Definition named (l : Logger) (s : string) : Logger :=
  {| core := core l;
     name := if String.eqb (name l) "" then s else name l +:+ "." +:+ s;
     addCaller := addCaller l; callerSkip := callerSkip l;
     addStack := addStack l |}.

(** The copy [With] makes when there are fields. *)
Definition with_fields (l : Logger) (fields : list Field) : Logger :=
  {| core := map (fun c => zapcore.With c fields) (core l);
     name := name l; addCaller := addCaller l;
     callerSkip := callerSkip l; addStack := addStack l |}.

(** A record as one enabled core writes it. *)
Record Written := {
  w_out : zapcore.WriteSyncer;
  w_enc : zapcore.Encoder;
  w_level : zapcore.Level;
  w_logger : string;
  w_msg : string;
  w_stack : bool;
  w_fields : list Field
}.

(** One emission: every core enabled at [lvl] writes the record, with
    the core's bound fields before the call's, and with a stack trace
    when [addStack] is enabled at [lvl]. *)
Definition write (l : Logger) (lvl : zapcore.Level) (msg : string)
    (fields : list Field) : list Written :=
  map (fun c =>
         {| w_out := zapcore.out c; w_enc := zapcore.enc c; w_level := lvl;
            w_logger := name l; w_msg := msg;
            w_stack := zapcore.Enabled (addStack l) lvl;
            w_fields := zapcore.context c ++ fields |})
      (filter (fun c => zapcore.Enabled (zapcore.level c) lvl = true) (core l)).

End zap.

(** ** context *)

Module context.

(** A [context.Context]: [None] is the nil interface, otherwise the
    chain of [WithValue] bindings, innermost first (cancellation and
    deadlines carry no values). *)
Definition Context := option (list (iface * iface)).

Definition Background : Context := Some [].

Definition WithValue (parent : list (iface * iface)) (key val : iface) : Context :=
  Some ((key, val) :: parent).

(** [k == key] for a key of dynamic type string: equal dynamic type and
    equal value. *)
Definition key_is (key : string) (k : iface) : bool :=
  match k with VString s => String.eqb s key | _ => false end.

Fixpoint lookup_key (c : list (iface * iface)) (key : string) : iface :=
  match c with
  | [] => VNil
  | (k, v) :: parent => if key_is key k then v else lookup_key parent key
  end.

(** [ctx == nil] *)
Definition is_nil (ctx : Context) : bool :=
  match ctx with None => true | Some _ => false end.

(** [ctx.Value(key)]; a method call on the nil interface panics. *)
Definition Value (ctx : Context) (key : string) : option iface :=
  match ctx with
  | None => None
  | Some c => Some (lookup_key c key)
  end.

End context.

(** [_, ok := v.(zap.Field)] *)
Definition is_zap_Field (v : iface) : bool :=
  match v with VField _ _ => true | _ => false end.

(** The loop of [handleFields], on the index [i] as in the source.  [n]
    bounds the number of iterations; [handleFields] starts it with
    [len(args)], which is never used up ([handleFields_loop_fuel]). *)
Fixpoint handleFields_loop (n : nat) (args : list iface) (i : nat)
    (fields : list zap.Field) : list zap.Field :=
  match n with
  | O => fields
  | S n' =>
    if negb (i <? length args)%nat then fields
    else
      match args !! i with
      | None => fields
      | Some key =>
        if is_zap_Field key then fields
        else if (i =? length args - 1)%nat then fields
        else
          match args !! (i + 1)%nat with
          | None => fields
          | Some val =>
            match key with
            | VString keyStr =>
                handleFields_loop n' args (i + 2) (fields ++ [zap.Any keyStr val])
            | _ => fields
            end
          end
      end
  end.

Definition handleFields (args : list iface) (additional : list zap.Field)
    : list zap.Field :=
  if (length args =? 0)%nat then additional
  else handleFields_loop (length args) args 0 [] ++ additional.

(** What the specification says of the coercion: the fields of the
    leading run of (string key, value) pairs, up to the first element
    that does not start such a pair. *)
Fixpoint leading_pairs (args : list iface) : list zap.Field :=
  match args with
  | VString k :: v :: rest => zap.Any k v :: leading_pairs rest
  | _ => []
  end.

(** ** The package: configuration *)

Record Config := {
  LogDir : string;
  LogFile : string;
  MaxSize : Z;
  MaxBackups : Z;
  MaxAge : Z;
  Compress : bool;
  LogLevel : string;
  JsonEncode : bool;
  StacktraceLevel : string;
  Stdout : bool;
  FilePerLevel : bool
}.

(** [opts.LogDir = dir] *)
Definition set_LogDir (dir : string) (opts : Config) : Config :=
  {| LogDir := dir; LogFile := LogFile opts; MaxSize := MaxSize opts;
     MaxBackups := MaxBackups opts; MaxAge := MaxAge opts;
     Compress := Compress opts; LogLevel := LogLevel opts;
     JsonEncode := JsonEncode opts; StacktraceLevel := StacktraceLevel opts;
     Stdout := Stdout opts; FilePerLevel := FilePerLevel opts |}.

(** [opts.StacktraceLevel = lvl] *)
Definition set_StacktraceLevel (lvl : string) (opts : Config) : Config :=
  {| LogDir := LogDir opts; LogFile := LogFile opts; MaxSize := MaxSize opts;
     MaxBackups := MaxBackups opts; MaxAge := MaxAge opts;
     Compress := Compress opts; LogLevel := LogLevel opts;
     JsonEncode := JsonEncode opts; StacktraceLevel := lvl;
     Stdout := Stdout opts; FilePerLevel := FilePerLevel opts |}.

(** [const LoggerKey = "_logger"] *)
Definition LoggerKey : string := "_logger".

(** ** The package: the store

    [*zap.Logger] and [*baseLogger] are addresses into two append-only
    heaps; a [Logger] interface value is nil or a [*baseLogger]. *)

Record baseLogger := { Logger_ : loc }.

Definition Logger := option loc.

Record State := {
  zaps : list zap.Logger;
  bases : list baseLogger;
  logger : Logger;
  zap_globalL : option loc;
  written : list zap.Written
}.

Definition init_state : State :=
  {| zaps := []; bases := []; logger := None; zap_globalL := None;
     written := [] |}.

(** Computations over the store; [None] is a panic. *)
Definition M (A : Type) : Type := State -> option (A * State).

Definition ret {A} (a : A) : M A := fun st => Some (a, st).

Definition bind {A B} (m : M A) (k : A -> M B) : M B :=
  fun st => match m st with
            | Some (a, st') => k a st'
            | None => None
            end.

Definition panic {A} : M A := fun _ => None.

(** A step that may panic and does not touch the store. *)
Definition lift {A} (o : option A) : M A :=
  fun st => match o with Some a => Some (a, st) | None => None end.

Notation "'let*' x ':=' m 'in' k" := (bind m (fun x => k))
  (at level 10, x name, m at level 100, k at level 200).

(** [new(zap.Logger)] holding [l] *)
Definition alloc_zap (l : zap.Logger) : M loc :=
  fun st => Some (length (zaps st),
                  {| zaps := zaps st ++ [l]; bases := bases st;
                     logger := logger st; zap_globalL := zap_globalL st;
                     written := written st |}).

(** [&baseLogger{l}] *)
Definition alloc_base (b : baseLogger) : M loc :=
  fun st => Some (length (bases st),
                  {| zaps := zaps st; bases := bases st ++ [b];
                     logger := logger st; zap_globalL := zap_globalL st;
                     written := written st |}).

(** [*p] for [p *zap.Logger] *)
Definition load_zap (p : loc) : M zap.Logger :=
  fun st => match zaps st !! p with
            | Some l => Some (l, st)
            | None => None
            end.

(** [b.Logger] for [b *baseLogger] *)
Definition load_base (b : loc) : M baseLogger :=
  fun st => match bases st !! b with
            | Some bl => Some (bl, st)
            | None => None
            end.

(** [logger = lg] *)
Definition set_logger (lg : Logger) : M unit :=
  fun st => Some (tt, {| zaps := zaps st; bases := bases st; logger := lg;
                         zap_globalL := zap_globalL st;
                         written := written st |}).

Definition get_logger : M Logger := fun st => Some (logger st, st).

(** [zap.ReplaceGlobals(l)] *)
Definition zap_ReplaceGlobals (p : loc) : M unit :=
  fun st => Some (tt, {| zaps := zaps st; bases := bases st;
                         logger := logger st; zap_globalL := Some p;
                         written := written st |}).

Definition append_written (ws : list zap.Written) : M unit :=
  fun st => Some (tt, {| zaps := zaps st; bases := bases st;
                         logger := logger st; zap_globalL := zap_globalL st;
                         written := written st ++ ws |}).

(** [Logger.Named] of zap: the receiver itself for the empty segment,
    otherwise a fresh copy under the extended name. *)
Definition zap_Named (p : loc) (s : string) : M loc :=
  if String.eqb s "" then ret p
  else let* l := load_zap p in alloc_zap (zap.named l s).

(** [Logger.With] of zap: the receiver itself for no fields, otherwise a
    fresh copy whose cores carry the fields. *)
Definition zap_With (p : loc) (fields : list zap.Field) : M loc :=
  if (length fields =? 0)%nat then ret p
  else let* l := load_zap p in alloc_zap (zap.with_fields l fields).

(** [Logger.WithOptions] of zap: always a fresh copy. *)
Definition zap_WithOptions (p : loc) (opts : list zap.Option) : M loc :=
  let* l := load_zap p in alloc_zap (fold_left zap.apply opts l).

(** A method call through a [Logger] interface value. *)
Definition call {A} (lg : Logger) (method : loc -> M A) : M A :=
  match lg with
  | Some b => method b
  | None => panic
  end.

(** ** A sample runtime and sample inputs, for the examples at the end *)

(** Stands for the Unicode path of [strings.ToLower]; the examples use
    ASCII strings only. *)
Definition example_lower (s : string) : string := s.

Definition example_Join (dir file : string) : string :=
  if String.eqb dir "" then file else dir +:+ "/" +:+ file.

Definition example_Getenv (key : string) : string :=
  if String.eqb key "LOG_DIR" then "/var/log" else "".

(** [Config{LogFile: "app.log", LogLevel: "warn", FilePerLevel: true}] *)
Definition example_split : Config :=
  {| LogDir := ""; LogFile := "app.log"; MaxSize := 0; MaxBackups := 0;
     MaxAge := 0; Compress := false; LogLevel := "warn"; JsonEncode := true;
     StacktraceLevel := ""; Stdout := false; FilePerLevel := true |}.

(** [Config{LogDir: "/data/logs", LogFile: "app.log", LogLevel: "warn"}] *)
Definition example_single : Config :=
  {| LogDir := "/data/logs"; LogFile := "app.log"; MaxSize := 0;
     MaxBackups := 0; MaxAge := 0; Compress := false; LogLevel := "warn";
     JsonEncode := true; StacktraceLevel := ""; Stdout := false;
     FilePerLevel := false |}.

(** A logger named "root" with one sink and the field svc=api bound. *)
Definition example_logger : zap.Logger :=
  {| zap.core :=
       [{| zapcore.enc := zapcore.JSONEncoder;
           zapcore.out := [zapcore.os_Stdout];
           zapcore.level := zapcore.AtomicLevel zapcore.DebugLevel;
           zapcore.context := [zap.Any "svc" (VString "api")] |}];
     zap.name := "root"; zap.addCaller := true; zap.callerSkip := 2;
     zap.addStack := zapcore.AtomicLevel zapcore.ErrorLevel |}.

(** A store holding that logger at address 0, wrapped at address 0. *)
Definition example_state : State :=
  {| zaps := [example_logger]; bases := [{| Logger_ := 0 |}];
     logger := Some 0; zap_globalL := Some 0; written := [] |}.

(** ** The package: functions *)

Section log.

#[local] Set Default Proof Using "Type".

(** The Go runtime, as far as the package reads it: [unicode.ToLower]
    mapped over a string that is not all ASCII, [filepath.Join] on two
    elements, and the process environment behind [os.Getenv]. *)
Variable unicode_lower : string -> string.
Variable filepath_Join : string -> string -> string.
Variable os_Getenv : string -> string.

(** logLevel string logger level to zap logger level, default is debug level *)
Definition logLevel (level : string) : zapcore.Level :=
  let s := strings_ToLower unicode_lower level in
  if String.eqb s "debug" then zapcore.DebugLevel
  else if String.eqb s "info" then zapcore.InfoLevel
  else if String.eqb s "warn" || String.eqb s "warning" then zapcore.WarnLevel
  else if String.eqb s "error" then zapcore.ErrorLevel
  else if String.eqb s "fatal" then zapcore.FatalLevel
  else zapcore.DebugLevel.

(** newWriteSyncer new file writer.  [opts] is a pointer in the source:
    the record is threaded through and returned. *)
Definition newWriteSyncer (opts : Config) (fileName : string)
    : Config * zapcore.WriteSyncer :=
  let fileName := if String.eqb fileName "" then LogFile opts else fileName in
  let opts :=
    if String.eqb (LogDir opts) "" then set_LogDir (os_Getenv "LOG_DIR") opts
    else opts in
  let hook :=
    {| lumberjack.Filename := filepath_Join (LogDir opts) fileName;
       lumberjack.MaxSize := MaxSize opts;
       lumberjack.MaxBackups := MaxBackups opts;
       lumberjack.MaxAge := MaxAge opts;
       lumberjack.Compress := Compress opts;
       lumberjack.LocalTime := true |} in
  (opts, zapcore.AddSync (zapcore.File hook)).

(** NewZapCore new zap core and hook for zap logger *)
Definition NewZapCore (opts : Config) (fileName : string)
    (level : zapcore.LevelEnabler) : Config * zapcore.Core :=
  let encoder :=
    if JsonEncode opts then zapcore.JSONEncoder else zapcore.ConsoleEncoder in
  let '(opts, writeSyncer) := newWriteSyncer opts fileName in
  let writeSyncer :=
    if Stdout opts
    then zapcore.NewMultiWriteSyncer (zapcore.AddSync zapcore.os_Stdout) writeSyncer
    else writeSyncer in
  (opts, zapcore.NewCore encoder writeSyncer level).

Definition debugPriority : zapcore.LevelEnabler :=
  zapcore.LevelEnablerFunc (fun lev => (lev =? zapcore.DebugLevel)%Z).
Definition infoPriority : zapcore.LevelEnabler :=
  zapcore.LevelEnablerFunc (fun lev => (lev =? zapcore.InfoLevel)%Z).
Definition warnPriority : zapcore.LevelEnabler :=
  zapcore.LevelEnablerFunc (fun lev => (lev =? zapcore.WarnLevel)%Z).
Definition errorPriority : zapcore.LevelEnabler :=
  zapcore.LevelEnablerFunc (fun lev => (zapcore.ErrorLevel <=? lev)%Z).

(** Zap init zap logger: the configuration after the call, and the logger
    built. *)
Definition Zap (opts : Config) : Config * zap.Logger :=
  let '(opts, cores) :=
    if FilePerLevel opts then
      let '(opts, c1) := NewZapCore opts "debug.log" debugPriority in
      let '(opts, c2) := NewZapCore opts "info.log" infoPriority in
      let '(opts, c3) := NewZapCore opts "warn.log" warnPriority in
      let '(opts, c4) := NewZapCore opts "error.log" errorPriority in
      (opts, [c1; c2; c3; c4])
    else
      let defaultLevel := zapcore.AtomicLevel (logLevel (LogLevel opts)) in
      let '(opts, c) := NewZapCore opts (LogFile opts) defaultLevel in
      (opts, [c]) in
  let opts :=
    if String.eqb (StacktraceLevel opts) "" then set_StacktraceLevel "error" opts
    else opts in
  (opts,
   zap.New (zapcore.NewTee cores)
     [zap.AddCaller; zap.AddCallerSkip 2;
      zap.AddStacktrace (zapcore.AtomicLevel (logLevel (StacktraceLevel opts)))]).

(** New create logger with options and init global logger *)
Definition New (opts : Config) : M (Config * Logger) :=
  let '(opts, zl) := Zap opts in
  let* l := alloc_zap zl in
  let* b := alloc_base {| Logger_ := l |} in
  let* _ := set_logger (Some b) in
  let* _ := zap_ReplaceGlobals l in
  let* lg := get_logger in
  ret (opts, lg).

(** newDefaultLogger if not new a logger, will generate a default logger *)
Definition newDefaultLogger : M Logger :=
  let* r := New {| LogDir := os_Getenv "LOG_DIR"; LogFile := ""; MaxSize := 0;
                   MaxBackups := 0; MaxAge := 0; Compress := false;
                   LogLevel := ""; JsonEncode := true; StacktraceLevel := "";
                   Stdout := false; FilePerLevel := true |} in
  ret (snd r).

(** defaultLogger new default Logger if logger is nil *)
Definition defaultLogger : M Logger :=
  let* lg := get_logger in
  match lg with
  | None =>
      let* d := newDefaultLogger in
      let* _ := set_logger d in
      get_logger
  | Some _ => get_logger
  end.

(** newLoggerWithExtraSkip allows zap logger with callstack skipping *)
Definition newLoggerWithExtraSkip (l : loc) (callerSkip : Z) : M Logger :=
  let* l' := zap_WithOptions l [zap.AddCallerSkip callerSkip] in
  let* b := alloc_base {| Logger_ := l' |} in
  ret (Some b).

(** Methods of [*baseLogger]; [b] is the receiver. *)

Definition AddCallerSkip (b : loc) (callerSkip : Z) : M Logger :=
  let* bl := load_base b in
  newLoggerWithExtraSkip (Logger_ bl) callerSkip.

Definition WithName (b : loc) (name : string) : M Logger :=
  let* bl := load_base b in
  let* l := zap_Named (Logger_ bl) name in
  newLoggerWithExtraSkip l (-1).

Definition WithValues (b : loc) (keysAndValues : list iface) : M Logger :=
  let* bl := load_base b in
  let* l := zap_With (Logger_ bl) (handleFields keysAndValues []) in
  newLoggerWithExtraSkip l (-1).

(** [l.(Logger)] *)
Definition as_Logger (l : iface) : option loc :=
  match l with VLogger p => Some p | _ => None end.

Definition WithContext (b : loc) (ctx : context.Context) : M Logger :=
  if context.is_nil ctx then get_logger
  else
    let* l := lift (context.Value ctx LoggerKey) in
    match as_Logger l with
    | Some ctxLogger => ret (Some ctxLogger)
    | None => get_logger
    end.

(** The records an emission through [b] writes. *)
Definition log_at (lvl : zapcore.Level) (b : loc) (msg : string)
    (fields : list zap.Field) : M (list zap.Written) :=
  let* bl := load_base b in
  let* l := load_zap (Logger_ bl) in
  let ws := zap.write l lvl msg fields in
  let* _ := append_written ws in
  ret ws.

Definition Debug := log_at zapcore.DebugLevel.
Definition Info := log_at zapcore.InfoLevel.
Definition Warn := log_at zapcore.WarnLevel.
Definition Error := log_at zapcore.ErrorLevel.
(** [Fatal] writes the record; the exit that follows is not modelled. *)
Definition Fatal := log_at zapcore.FatalLevel.

(** Package-level functions, on the process-wide default. *)

Definition pkg_WithName (name : string) : M Logger :=
  let* d := defaultLogger in
  let* l := call d (fun b => WithName b name) in
  call l (fun b => AddCallerSkip b (-1)).

(** The slice is passed on as ONE variadic argument, as the source has
    it ([WithValues(keysAndValues)], no [...]). *)
Definition pkg_WithValues (keysAndValues : list iface) : M Logger :=
  let* d := defaultLogger in
  let* l := call d (fun b => WithValues b [VSlice keysAndValues]) in
  call l (fun b => AddCallerSkip b (-1)).

Definition pkg_WithContext (ctx : context.Context) : M Logger :=
  let* d := defaultLogger in
  call d (fun b => WithContext b ctx).

(** [Debug], [Info], ... of the package, at level [lvl]. *)
Definition pkg_log (lvl : zapcore.Level) (msg : string)
    (fields : list zap.Field) : M (list zap.Written) :=
  let* d := defaultLogger in
  call d (fun b => log_at lvl b msg fields).

(** ** Reading a configured logger *)

(** The files a core writes to. *)
Definition core_files (c : zapcore.Core) : list string :=
  omap (fun w => match w with
                 | zapcore.File hook => Some (lumberjack.Filename hook)
                 | zapcore.os_Stdout => None
                 end) (zapcore.out c).

(** For each sink of a logger, in order: its files, and whether it takes
    an emission at [lev]. *)
Definition sink_table (l : zap.Logger) (lev : zapcore.Level)
    : list (list string * bool) :=
  map (fun c => (core_files c, zapcore.Enabled (zapcore.level c) lev))
      (zap.core l).

(** The directory the sinks are opened in: the configured one, or the
    value of LOG_DIR when none is configured. *)
Definition effective_dir (opts : Config) : string :=
  if String.eqb (LogDir opts) "" then os_Getenv "LOG_DIR" else LogDir opts.

(** What the first [newWriteSyncer] leaves in the configuration. *)
Definition fill_dir (opts : Config) : Config :=
  if String.eqb (LogDir opts) "" then set_LogDir (os_Getenv "LOG_DIR") opts
  else opts.

(** The configuration as a construction leaves it: the directory and the
    stack-trace threshold filled in where they were empty, the other
    fields as they were. *)
Definition config_after (opts : Config) : Config :=
  {| LogDir := effective_dir opts; LogFile := LogFile opts;
     MaxSize := MaxSize opts; MaxBackups := MaxBackups opts;
     MaxAge := MaxAge opts; Compress := Compress opts;
     LogLevel := LogLevel opts; JsonEncode := JsonEncode opts;
     StacktraceLevel :=
       if String.eqb (StacktraceLevel opts) "" then "error"
       else StacktraceLevel opts;
     Stdout := Stdout opts; FilePerLevel := FilePerLevel opts |}.

(** The core [NewZapCore] builds, written out. *)
Definition core_for (opts : Config) (fileName : string)
    (level : zapcore.LevelEnabler) : zapcore.Core :=
  let hook :=
    {| lumberjack.Filename :=
         filepath_Join (effective_dir opts)
           (if String.eqb fileName "" then LogFile opts else fileName);
       lumberjack.MaxSize := MaxSize opts;
       lumberjack.MaxBackups := MaxBackups opts;
       lumberjack.MaxAge := MaxAge opts;
       lumberjack.Compress := Compress opts;
       lumberjack.LocalTime := true |} in
  {| zapcore.enc :=
       if JsonEncode opts then zapcore.JSONEncoder else zapcore.ConsoleEncoder;
     zapcore.out :=
       if Stdout opts then [zapcore.os_Stdout; zapcore.File hook]
       else [zapcore.File hook];
     zapcore.level := level;
     zapcore.context := [] |}.

(** The [zap.Logger] behind a [*baseLogger]. *)
Definition logger_at (st : State) (b : loc) : option zap.Logger :=
  bl ← bases st !! b; zaps st !! Logger_ bl.

(** The fields bound to the logger behind [lg], one list per sink. *)
Definition bound_fields (st : State) (lg : Logger) : option (list (list zap.Field)) :=
  b ← lg; l ← logger_at st b; Some (map zapcore.context (zap.core l)).

(** The name of the logger behind [lg]. *)
Definition bound_name (st : State) (lg : Logger) : option string :=
  b ← lg; l ← logger_at st b; Some (zap.name l).

(** No sink of [l] has a bound field. *)
Definition no_fields (l : zap.Logger) : Prop :=
  Forall (fun c => zapcore.context c = []) (zap.core l).

(** ** Stores over time *)

(** [st'] has every object of [st], unchanged. *)
Definition heaps_kept (st st' : State) : Prop :=
  (forall p zl, zaps st !! p = Some zl -> zaps st' !! p = Some zl)
  /\ (forall b bl, bases st !! b = Some bl -> bases st' !! b = Some bl).

(** [heaps_kept], and the default is the same. *)
Definition extends (st st' : State) : Prop :=
  heaps_kept st st' /\ logger st' = logger st.

(** A computation that, when it returns, has only added to the store. *)
Definition preserves {A} (m : M A) : Prop :=
  forall st a st', m st = Some (a, st') -> extends st st'.

(** [extends], and nothing was written nor zap's global replaced. *)
Definition frame (st st' : State) : Prop :=
  extends st st'
  /\ written st' = written st
  /\ zap_globalL st' = zap_globalL st.

(** The calls a client of the package can make. *)
Inductive op :=
| OpNew (opts : Config)
| OpAddCallerSkip (b : loc) (callerSkip : Z)
| OpWithName (b : loc) (name : string)
| OpWithValues (b : loc) (keysAndValues : list iface)
| OpWithContext (b : loc) (ctx : context.Context)
| OpLog (lvl : zapcore.Level) (b : loc) (msg : string) (fields : list zap.Field)
| OpPkgWithName (name : string)
| OpPkgWithValues (keysAndValues : list iface)
| OpPkgWithContext (ctx : context.Context)
| OpPkgLog (lvl : zapcore.Level) (msg : string) (fields : list zap.Field).

(** The store after a call that returns. *)
Definition exec (o : op) (st : State) : option State :=
  match o with
  | OpNew opts => snd <$> New opts st
  | OpAddCallerSkip b k => snd <$> AddCallerSkip b k st
  | OpWithName b name => snd <$> WithName b name st
  | OpWithValues b kvs => snd <$> WithValues b kvs st
  | OpWithContext b ctx => snd <$> WithContext b ctx st
  | OpLog lvl b msg fields => snd <$> log_at lvl b msg fields st
  | OpPkgWithName name => snd <$> pkg_WithName name st
  | OpPkgWithValues kvs => snd <$> pkg_WithValues kvs st
  | OpPkgWithContext ctx => snd <$> pkg_WithContext ctx st
  | OpPkgLog lvl msg fields => snd <$> pkg_log lvl msg fields st
  end.

(** The stores a process can be in: from the empty store, by calls. *)
Inductive reachable : State -> Prop :=
| reachable_init : reachable init_state
| reachable_step (st st' : State) (o : op) :
    reachable st -> exec o st = Some st' -> reachable st'.

(** The default logger, when set, is a live logger without bound fields
    and without a name. *)
Definition default_plain (st : State) : Prop :=
  forall b, logger st = Some b ->
    exists zl, logger_at st b = Some zl /\ no_fields zl /\ zap.name zl = "".

(** ** Severity names, as the specification reads them *)

Definition is_lower_byte (c : ascii) : bool :=
  (97 <=? byte_of c)%N && (byte_of c <=? 122)%N.






(** The names [logLevel] has a case for. *)
Definition level_names : list (string * zapcore.Level) :=
  [("debug", zapcore.DebugLevel); ("info", zapcore.InfoLevel);
   ("warn", zapcore.WarnLevel); ("warning", zapcore.WarnLevel);
   ("error", zapcore.ErrorLevel); ("fatal", zapcore.FatalLevel)].

(** ** Further vocabulary for the properties *)

(** The argument list a caller writes for the pairs [kvs]:
    key, value, key, value, ... *)
Definition alternate (kvs : list (string * iface)) : list iface :=
  flat_map (fun kv => [VString (fst kv); snd kv]) kvs.

(** [_, isString := v.(string)] *)
Definition is_string (v : iface) : bool :=
  match v with VString _ => true | _ => false end.

Definition is_letter_byte (c : ascii) : bool :=
  is_upper_byte c || is_lower_byte c.

(** Two bytes are the same ASCII letter in either case, or the same
    byte. *)
Definition equal_fold_byte (a b : ascii) : bool :=
  Ascii.eqb a b
  || (is_letter_byte a && is_letter_byte b
      && (N.lxor (byte_of a) (byte_of b) =? 32)%N).

(** Two strings are equal up to the case of their ASCII letters. *)
Fixpoint equal_fold (s t : string) : bool :=
  match s, t with
  | EmptyString, EmptyString => true
  | String a s', String b t' => equal_fold_byte a b && equal_fold s' t'
  | _, _ => false
  end.

(** [opts.LogLevel = lvl] *)
Definition set_LogLevel (lvl : string) (opts : Config) : Config :=
  {| LogDir := LogDir opts; LogFile := LogFile opts; MaxSize := MaxSize opts;
     MaxBackups := MaxBackups opts; MaxAge := MaxAge opts;
     Compress := Compress opts; LogLevel := lvl;
     JsonEncode := JsonEncode opts; StacktraceLevel := StacktraceLevel opts;
     Stdout := Stdout opts; FilePerLevel := FilePerLevel opts |}.

(** The configuration literal of [newDefaultLogger]. *)
Definition default_opts : Config :=
  {| LogDir := os_Getenv "LOG_DIR"; LogFile := ""; MaxSize := 0;
     MaxBackups := 0; MaxAge := 0; Compress := false; LogLevel := "";
     JsonEncode := true; StacktraceLevel := ""; Stdout := false;
     FilePerLevel := true |}.

(** The stack-trace threshold a configuration asks for. *)
Definition stack_threshold (opts : Config) : zapcore.Level :=
  logLevel (if String.eqb (StacktraceLevel opts) "" then "error"
            else StacktraceLevel opts).

(** The lumberjack writer of a sink of [opts] on file [name]. *)
Definition hook_for (opts : Config) (name : string) : lumberjack.Logger :=
  {| lumberjack.Filename := filepath_Join (effective_dir opts) name;
     lumberjack.MaxSize := MaxSize opts;
     lumberjack.MaxBackups := MaxBackups opts;
     lumberjack.MaxAge := MaxAge opts;
     lumberjack.Compress := Compress opts;
     lumberjack.LocalTime := true |}.

(** Where a sink of [opts] on file [name] writes. *)
Definition out_for (opts : Config) (name : string) : zapcore.WriteSyncer :=
  if Stdout opts then [zapcore.os_Stdout; zapcore.File (hook_for opts name)]
  else [zapcore.File (hook_for opts name)].

(** Every [*baseLogger] of the store wraps a [*zap.Logger] of the store,
    and the default, when set, is a [*baseLogger] of the store. *)
Definition all_live (st : State) : Prop :=
  (forall b bl, bases st !! b = Some bl -> is_Some (zaps st !! Logger_ bl))
  /\ (forall d, logger st = Some d -> is_Some (bases st !! d)).



(** The file of the split mode that takes level [lev] (from debug
    upwards). *)
Definition severity_file (lev : zapcore.Level) : string :=
  if (lev =? zapcore.DebugLevel)%Z then "debug.log"
  else if (lev =? zapcore.InfoLevel)%Z then "info.log"
  else if (lev =? zapcore.WarnLevel)%Z then "warn.log"
  else "error.log".

(** The record a logger fresh from [Zap opts] writes through its sink on
    file [name]. *)
Definition record_of (opts : Config) (name : string) (lvl : zapcore.Level)
    (msg : string) (fields : list zap.Field) : zap.Written :=
  {| zap.w_out := out_for opts name;
     zap.w_enc :=
       if JsonEncode opts then zapcore.JSONEncoder else zapcore.ConsoleEncoder;
     zap.w_level := lvl; zap.w_logger := ""; zap.w_msg := msg;
     zap.w_stack := (stack_threshold opts <=? lvl)%Z;
     zap.w_fields := fields |}.

(** A computation that, when it returns, leaves a live store live. *)
Definition keeps_live {A} (m : M A) : Prop :=
  forall st a st', all_live st -> m st = Some (a, st') -> all_live st'.

(** * Properties *)

(** ** Key-value coercion *)

Lemma leading_pairs_single (x : iface) : leading_pairs [x] = [].
Proof. by destruct x. Qed.

(** The loop computes the leading pairs of what is left from index [i]
    on, as soon as [n] covers the elements left. *)
Lemma handleFields_loop_fuel (n : nat) :
  forall (args : list iface) (i : nat) (fields : list zap.Field),
    (length args - i <= n)%nat ->
    handleFields_loop n args i fields = fields ++ leading_pairs (drop i args).
Proof.
  induction n as [|n IH]; intros args i fields Hn; simpl.
  - rewrite drop_ge by lia. by rewrite app_nil_r.
  - destruct (i <? length args)%nat eqn:Hlt; simpl.
    2:{ apply Nat.ltb_ge in Hlt. rewrite drop_ge by lia. by rewrite app_nil_r. }
    apply Nat.ltb_lt in Hlt.
    destruct (lookup_lt_is_Some_2 args i Hlt) as [key Hkey].
    rewrite Hkey, (drop_S _ _ _ Hkey).
    destruct (is_zap_Field key) eqn:Hf.
    { destruct key; try discriminate. by rewrite app_nil_r. }
    destruct (i =? length args - 1)%nat eqn:Hlast.
    { apply Nat.eqb_eq in Hlast. rewrite drop_ge by lia.
      by rewrite leading_pairs_single, app_nil_r. }
    apply Nat.eqb_neq in Hlast.
    assert (Hlt' : (i + 1 < length args)%nat) by lia.
    destruct (lookup_lt_is_Some_2 args (i + 1) Hlt') as [val Hval].
    rewrite Hval. replace (S i) with (i + 1)%nat by lia.
    rewrite (drop_S _ _ _ Hval).
    destruct key; try by rewrite app_nil_r.
    rewrite IH by lia. simpl.
    replace (S (i + 1)) with (i + 2)%nat by lia.
    by rewrite <- app_assoc.
Qed.

Lemma handleFields_spec (args : list iface) (additional : list zap.Field) :
  handleFields args additional = leading_pairs args ++ additional.
Proof.
  unfold handleFields. destruct args as [|x args]; [done|].
  change (length (x :: args) =? 0)%nat with false. cbv iota.
  rewrite handleFields_loop_fuel by lia. by rewrite drop_0.
Qed.

(** C1: for every argument list, [handleFields] returns the fields of the
    leading well-formed (string key, value) pairs, in order, and nothing
    of what follows the first malformed element; so ["a", 1, "b", 2]
    gives a=1, b=2, ["a", 1, "b"] gives a=1 only, and [5, "x"] gives no
    field. *)
Theorem handleFields_leading_pairs :
  (forall args : list iface, handleFields args [] = leading_pairs args)
  /\ handleFields [VString "a"; VInt 1; VString "b"; VInt 2] []
     = [zap.Any "a" (VInt 1); zap.Any "b" (VInt 2)]
  /\ handleFields [VString "a"; VInt 1; VString "b"] [] = [zap.Any "a" (VInt 1)]
  /\ handleFields [VInt 5; VString "x"] [] = [].
Proof.
  split; [|by repeat split].
  intros args. by rewrite handleFields_spec, app_nil_r.
Qed.

(** The prefix that is kept and the remainder that is dropped, spelled
    out: after any run of well-formed pairs, a remainder that is empty, a
    lone element, or starts with a non-string is dropped whole. *)
Lemma handleFields_truncates (kvs : list (string * iface)) (rest : list iface) :
  leading_pairs rest = [] ->
  handleFields (flat_map (fun kv => [VString (fst kv); snd kv]) kvs ++ rest) []
  = map (fun kv => zap.Any (fst kv) (snd kv)) kvs.
Proof.
  intros Hrest. rewrite handleFields_spec, app_nil_r.
  induction kvs as [|[k v] kvs IH]; simpl; [done|]. by rewrite IH.
Qed.


(** ** Severity names *)

Ltac each_byte c :=
  destruct c as [[] [] [] [] [] [] [] []]; vm_compute;
  intros; try discriminate; repeat split; try done.





Lemma lower_bytes_id (s : string) : hasUpper s = false -> lower_bytes s = s.
Proof.
  induction s as [|c s IH]; simpl; [done|].
  intros [Hc Hs]%orb_false_iff. unfold lower_byte. by rewrite Hc, IH.
Qed.

(** On an ASCII string, [strings.ToLower] is the byte-wise lowering. *)
Lemma strings_ToLower_ascii (s : string) :
  isASCII s = true -> strings_ToLower unicode_lower s = lower_bytes s.
Proof.
  intros Hs. unfold strings_ToLower. rewrite Hs.
  destruct (hasUpper s) eqn:Hu; [done|]. by rewrite lower_bytes_id.
Qed.




Lemma logLevel_other (s : string) :
  (forall name lvl, In (name, lvl) level_names ->
     strings_ToLower unicode_lower s <> name) ->
  logLevel s = zapcore.DebugLevel.
Proof.
  intros Hno. unfold logLevel.
  repeat match goal with
  | |- context [String.eqb ?a ?b] =>
      destruct (String.eqb_spec a b) as [He|_];
      [exfalso; eapply Hno; [|exact He]; simpl; eauto 10|]
  end.
  done.
Qed.



(** ** Construction: what [Zap] does to the configuration *)

Lemma newWriteSyncer_config (opts : Config) (fileName : string) :
  fst (newWriteSyncer opts fileName) = fill_dir opts.
Proof. reflexivity. Qed.

Lemma fill_dir_LogDir (opts : Config) : LogDir (fill_dir opts) = effective_dir opts.
Proof.
  unfold fill_dir, effective_dir. by destruct (String.eqb (LogDir opts) "").
Qed.

Lemma fill_dir_idem (opts : Config) : fill_dir (fill_dir opts) = fill_dir opts.
Proof.
  unfold fill_dir. destruct (String.eqb (LogDir opts) "") eqn:Hd; simpl.
  - by destruct (String.eqb (os_Getenv "LOG_DIR") "").
  - by rewrite Hd.
Qed.

Lemma NewZapCore_eq (opts : Config) (fileName : string)
    (level : zapcore.LevelEnabler) :
  NewZapCore opts fileName level = (fill_dir opts, core_for opts fileName level).
Proof.
  unfold NewZapCore, newWriteSyncer, core_for, fill_dir, effective_dir.
  destruct (String.eqb (LogDir opts) ""); simpl; by destruct (Stdout opts).
Qed.

Lemma core_for_fill_dir (opts : Config) (fileName : string)
    (level : zapcore.LevelEnabler) :
  core_for (fill_dir opts) fileName level = core_for opts fileName level.
Proof.
  unfold core_for, fill_dir, effective_dir.
  destruct (String.eqb (LogDir opts) "") eqn:Hd; simpl; rewrite ?Hd; [|done].
  by destruct (String.eqb (os_Getenv "LOG_DIR") "").
Qed.

Lemma core_for_files (opts : Config) (fileName : string)
    (level : zapcore.LevelEnabler) :
  core_files (core_for opts fileName level)
  = [filepath_Join (effective_dir opts)
       (if String.eqb fileName "" then LogFile opts else fileName)].
Proof. unfold core_files, core_for. simpl. by destruct (Stdout opts). Qed.

(** Runs the [NewZapCore] calls of [Zap] one after the other. *)
Ltac zap_cores :=
  repeat (rewrite NewZapCore_eq; cbv beta iota zeta; rewrite ?fill_dir_idem).

(** The cores of the logger [Zap] builds. *)
Lemma Zap_cores (opts : Config) :
  zap.core (snd (Zap opts))
  = if FilePerLevel opts then
      [core_for opts "debug.log" debugPriority;
       core_for opts "info.log" infoPriority;
       core_for opts "warn.log" warnPriority;
       core_for opts "error.log" errorPriority]
    else
      [core_for opts (LogFile opts)
         (zapcore.AtomicLevel (logLevel (LogLevel opts)))].
Proof.
  unfold Zap. destruct (FilePerLevel opts).
  - zap_cores. by rewrite !core_for_fill_dir.
  - by zap_cores.
Qed.

Lemma Zap_config (opts : Config) : fst (Zap opts) = config_after opts.
Proof.
  assert (Hfill : forall o : Config,
    (if String.eqb (StacktraceLevel (fill_dir o)) ""
     then set_StacktraceLevel "error" (fill_dir o) else fill_dir o)
    = config_after o).
  { intros o. unfold fill_dir, config_after, effective_dir, set_StacktraceLevel.
    destruct o as [d f ms mb ma c ll j sl so fp]; simpl.
    destruct (String.eqb d ""), (String.eqb sl "") eqn:Hs; simpl;
      rewrite ?Hs; try done; by apply String.eqb_eq in Hs as ->. }
  unfold Zap. destruct (FilePerLevel opts).
  - zap_cores. by rewrite Hfill.
  - zap_cores. by rewrite Hfill.
Qed.

Lemma Zap_addStack (opts : Config) :
  zap.addStack (snd (Zap opts))
  = zapcore.AtomicLevel (logLevel (StacktraceLevel (config_after opts))).
Proof.
  rewrite <- Zap_config. unfold Zap.
  destruct (FilePerLevel opts).
  - by zap_cores.
  - by zap_cores.
Qed.

Lemma Zap_name (opts : Config) : zap.name (snd (Zap opts)) = "".
Proof.
  unfold Zap. destruct (FilePerLevel opts).
  - by zap_cores.
  - by zap_cores.
Qed.


(** ** Construction: sinks and thresholds *)

(** C2: with FilePerLevel set, the logger has the four sinks debug.log,
    info.log, warn.log and error.log (in the effective directory); a
    debug emission is taken by the debug.log sink and no other, an info
    emission by info.log only, a warn emission by warn.log only, and an
    emission at error level or above by the error.log sink (and no
    other). *)
Theorem Zap_FilePerLevel_sinks (opts : Config) (lev : zapcore.Level) :
  FilePerLevel opts = true ->
  let l := snd (Zap opts) in
  let file := fun name => [filepath_Join (effective_dir opts) name] in
  (lev = zapcore.DebugLevel ->
     sink_table l lev = [(file "debug.log", true); (file "info.log", false);
                         (file "warn.log", false); (file "error.log", false)])
  /\ (lev = zapcore.InfoLevel ->
     sink_table l lev = [(file "debug.log", false); (file "info.log", true);
                         (file "warn.log", false); (file "error.log", false)])
  /\ (lev = zapcore.WarnLevel ->
     sink_table l lev = [(file "debug.log", false); (file "info.log", false);
                         (file "warn.log", true); (file "error.log", false)])
  /\ ((zapcore.ErrorLevel <= lev)%Z ->
     sink_table l lev = [(file "debug.log", false); (file "info.log", false);
                         (file "warn.log", false); (file "error.log", true)]).
Proof.
  intros Hsplit l file. subst l file. unfold sink_table.
  rewrite Zap_cores, Hsplit. cbn [map]. rewrite !core_for_files.
  cbn [String.eqb Ascii.eqb Bool.eqb core_for zapcore.level zapcore.Enabled
       debugPriority infoPriority warnPriority errorPriority].
  repeat split; intros Hlev.
  1-3: by rewrite Hlev.
  unfold zapcore.ErrorLevel, zapcore.DebugLevel, zapcore.InfoLevel,
    zapcore.WarnLevel in *.
  destruct (Z.eqb_spec lev (-1)), (Z.eqb_spec lev 0), (Z.eqb_spec lev 1),
    (Z.leb_spec 2 lev); try lia. done.
Qed.

(** C3: with FilePerLevel unset, the logger has exactly one sink; it
    writes to the configured file name (in the effective directory) and
    takes an emission if and only if its level is at or above the
    configured minimum, [logLevel] of the configured level string. *)
Theorem Zap_single_sink (opts : Config) :
  FilePerLevel opts = false ->
  exists c : zapcore.Core,
    zap.core (snd (Zap opts)) = [c]
    /\ core_files c = [filepath_Join (effective_dir opts) (LogFile opts)]
    /\ forall lev : zapcore.Level,
         zapcore.Enabled (zapcore.level c) lev = true
         <-> (logLevel (LogLevel opts) <= lev)%Z.
Proof.
  intros Hsplit. eexists. rewrite Zap_cores, Hsplit. split; [done|]. split.
  - rewrite core_for_files. by destruct (String.eqb (LogFile opts) "") eqn:He.
  - intros lev. simpl. apply Z.leb_le.
Qed.

(** C5, as the code has it: a construction leaves every field of the
    configuration as it was, except that an empty LogDir becomes the
    value of the LOG_DIR environment variable and an empty
    StacktraceLevel becomes "error"; [New] hands back that record. *)
Theorem Zap_config_after (opts : Config) :
  fst (Zap opts) = config_after opts
  /\ forall st : State, exists (lg : Logger) (st' : State),
       New opts st = Some ((config_after opts, lg), st').
Proof.
  split; [apply Zap_config|].
  intros st. unfold New. rewrite <- Zap_config.
  destruct (Zap opts) as [opts' zl]. by eexists _, _.
Qed.

(** C8: when the stack-trace threshold of the configuration is the empty
    string, the logger is built with the threshold of "error": a stack
    trace is attached to an emission exactly when its level is at error
    or above, in every record the emission writes. *)
Theorem Zap_default_stacktrace (opts : Config) :
  StacktraceLevel opts = "" ->
  let l := snd (Zap opts) in
  zap.addStack l = zapcore.AtomicLevel (logLevel "error")
  /\ logLevel "error" = zapcore.ErrorLevel
  /\ forall (lvl : zapcore.Level) (msg : string) (fields : list zap.Field)
            (w : zap.Written),
       In w (zap.write l lvl msg fields) ->
       (zap.w_stack w = true <-> (zapcore.ErrorLevel <= lvl)%Z).
Proof.
  intros Hst l. subst l. rewrite Zap_addStack.
  unfold config_after at 1. cbn [StacktraceLevel]. rewrite Hst.
  change (String.eqb "" "") with true. cbv iota.
  split; [done|]. split; [done|].
  intros lvl msg fields w Hw. unfold zap.write in Hw.
  apply in_map_iff in Hw as (c & <- & _). cbn [zap.w_stack].
  rewrite Zap_addStack. unfold config_after. cbn [StacktraceLevel].
  rewrite Hst. change (String.eqb "" "") with true. cbv iota.
  change (logLevel "error") with zapcore.ErrorLevel. apply Z.leb_le.
Qed.


(** ** The store: objects are never changed *)

Lemma heaps_kept_refl (st : State) : heaps_kept st st.
Proof. by split. Qed.

Lemma heaps_kept_trans (st1 st2 st3 : State) :
  heaps_kept st1 st2 -> heaps_kept st2 st3 -> heaps_kept st1 st3.
Proof. intros [H1 H2] [H3 H4]. split; eauto. Qed.

Lemma extends_refl (st : State) : extends st st.
Proof. split; [apply heaps_kept_refl|done]. Qed.

Lemma extends_trans (st1 st2 st3 : State) :
  extends st1 st2 -> extends st2 st3 -> extends st1 st3.
Proof.
  intros [H1 H2] [H3 H4]. split; [by eapply heaps_kept_trans|congruence].
Qed.

Lemma frame_refl (st : State) : frame st st.
Proof. split; [apply extends_refl|done]. Qed.

Lemma frame_trans (st1 st2 st3 : State) :
  frame st1 st2 -> frame st2 st3 -> frame st1 st3.
Proof.
  intros (H1 & H2 & H3) (H4 & H5 & H6).
  split; [by eapply extends_trans|split; congruence].
Qed.

Lemma heaps_kept_logger_at (st st' : State) (b : loc) (zl : zap.Logger) :
  heaps_kept st st' -> logger_at st b = Some zl -> logger_at st' b = Some zl.
Proof.
  intros [Hz Hb]. unfold logger_at.
  destruct (bases st !! b) as [bl|] eqn:Hbl; [|done]. intros Hl.
  rewrite (Hb _ _ Hbl). by apply Hz.
Qed.

Lemma heaps_kept_bases_length (st st' : State) :
  heaps_kept st st' -> length (bases st) <= length (bases st').
Proof.
  intros [_ Hb]. destruct (decide (length (bases st) <= length (bases st'))) as [|Hn]; [done|].
  destruct (lookup_lt_is_Some_2 (bases st) (length (bases st'))) as [bl Hbl]; [lia|].
  apply Hb in Hbl. apply lookup_lt_Some in Hbl. lia.
Qed.

Lemma logger_at_lt (st : State) (b : loc) (zl : zap.Logger) :
  logger_at st b = Some zl -> b < length (bases st).
Proof.
  unfold logger_at. destruct (bases st !! b) eqn:Hb; [|done].
  intros _. by apply lookup_lt_Some in Hb.
Qed.

Lemma bind_eq {A B} (m : M A) (k : A -> M B) (st st' : State) (a : A) :
  m st = Some (a, st') -> bind m k st = k a st'.
Proof. intros H. unfold bind. by rewrite H. Qed.

Lemma alloc_zap_spec (st : State) (zl : zap.Logger) :
  exists st', alloc_zap zl st = Some (length (zaps st), st')
    /\ frame st st' /\ zaps st' !! length (zaps st) = Some zl.
Proof.
  eexists. split; [reflexivity|]. split.
  - repeat split; simpl; try done. intros. by apply lookup_app_l_Some.
  - simpl. by apply list_lookup_middle.
Qed.

Lemma newLoggerWithExtraSkip_spec (st : State) (l : loc) (zl : zap.Logger) (k : Z) :
  zaps st !! l = Some zl ->
  exists st', newLoggerWithExtraSkip l k st = Some (Some (length (bases st)), st')
    /\ frame st st'
    /\ logger_at st' (length (bases st)) = Some (zap.apply zl (zap.AddCallerSkip k)).
Proof.
  intros Hl. unfold newLoggerWithExtraSkip, zap_WithOptions, bind, load_zap,
    alloc_zap, alloc_base, ret. rewrite Hl. simpl.
  eexists. split; [reflexivity|]. split.
  - repeat split; simpl; try done; intros; by apply lookup_app_l_Some.
  - unfold logger_at. simpl. rewrite list_lookup_middle by done. simpl.
    by apply list_lookup_middle.
Qed.

Lemma zap_Named_spec (st : State) (p : loc) (zl : zap.Logger) (s : string) :
  zaps st !! p = Some zl ->
  exists l st', zap_Named p s st = Some (l, st') /\ frame st st'
    /\ zaps st' !! l = Some (if String.eqb s "" then zl else zap.named zl s).
Proof.
  intros Hp. unfold zap_Named. destruct (String.eqb s "").
  - exists p, st. split; [done|]. split; [apply frame_refl|done].
  - rewrite (bind_eq _ _ st st zl) by (unfold load_zap; by rewrite Hp).
    destruct (alloc_zap_spec st (zap.named zl s)) as (st' & -> & Hf & Hl).
    by eexists _, _.
Qed.

Lemma zap_With_spec (st : State) (p : loc) (zl : zap.Logger) (fields : list zap.Field) :
  zaps st !! p = Some zl ->
  exists l st', zap_With p fields st = Some (l, st') /\ frame st st'
    /\ zaps st' !! l
       = Some (if (length fields =? 0)%nat then zl else zap.with_fields zl fields).
Proof.
  intros Hp. unfold zap_With. destruct (length fields =? 0)%nat.
  - exists p, st. split; [done|]. split; [apply frame_refl|done].
  - rewrite (bind_eq _ _ st st zl) by (unfold load_zap; by rewrite Hp).
    destruct (alloc_zap_spec st (zap.with_fields zl fields)) as (st' & -> & Hf & Hl).
    by eexists _, _.
Qed.

Lemma logger_at_inv (st : State) (b : loc) (zl : zap.Logger) :
  logger_at st b = Some zl ->
  exists bl, bases st !! b = Some bl /\ zaps st !! Logger_ bl = Some zl.
Proof.
  unfold logger_at. destruct (bases st !! b) as [bl|]; [|done]. by exists bl.
Qed.

(** A derivation: the steps common to the three deriving methods. *)
Lemma derive_spec (st : State) (b : loc) (zl zl' : zap.Logger)
    (step : loc -> M loc) (k : Z) :
  logger_at st b = Some zl ->
  (forall p, zaps st !! p = Some zl ->
     exists l st1, step p st = Some (l, st1) /\ frame st st1
       /\ zaps st1 !! l = Some zl') ->
  exists child st',
    (bind (load_base b) (fun bl =>
       bind (step (Logger_ bl)) (fun l => newLoggerWithExtraSkip l k))) st
    = Some (Some child, st')
    /\ frame st st' /\ child <> b
    /\ logger_at st' child = Some (zap.apply zl' (zap.AddCallerSkip k)).
Proof.
  intros Hb Hstep. pose proof (logger_at_lt _ _ _ Hb) as Hlt.
  destruct (logger_at_inv _ _ _ Hb) as (bl & Hbl & Hzl).
  rewrite (bind_eq _ _ st st bl) by (unfold load_base; by rewrite Hbl).
  destruct (Hstep _ Hzl) as (l & st1 & Hs & Hf1 & Hl).
  rewrite (bind_eq _ _ _ _ _ Hs).
  destruct (newLoggerWithExtraSkip_spec st1 l zl' k Hl) as (st' & -> & Hf2 & Hc).
  eexists _, _. split; [reflexivity|]. split; [by eapply frame_trans|].
  split; [|done].
  destruct Hf1 as [[Hk _] _]. apply heaps_kept_bases_length in Hk. lia.
Qed.

Lemma AddCallerSkip_spec (st : State) (b : loc) (zl : zap.Logger) (k : Z) :
  logger_at st b = Some zl ->
  exists child st', AddCallerSkip b k st = Some (Some child, st')
    /\ frame st st' /\ child <> b
    /\ logger_at st' child = Some (zap.apply zl (zap.AddCallerSkip k)).
Proof.
  intros Hb.
  destruct (derive_spec st b zl zl ret k Hb) as (child & st' & He & H);
    [intros p Hp; exists p, st; by repeat split; try apply frame_refl|].
  by exists child, st'.
Qed.

Lemma WithName_spec (st : State) (b : loc) (zl : zap.Logger) (name : string) :
  logger_at st b = Some zl ->
  exists child st', WithName b name st = Some (Some child, st')
    /\ frame st st' /\ child <> b
    /\ logger_at st' child
       = Some (zap.apply (if String.eqb name "" then zl else zap.named zl name)
                 (zap.AddCallerSkip (-1))).
Proof.
  intros Hb. apply (derive_spec st b zl _ (fun p => zap_Named p name) (-1) Hb).
  intros p Hp. by apply zap_Named_spec.
Qed.

Lemma WithValues_spec (st : State) (b : loc) (zl : zap.Logger) (kvs : list iface) :
  logger_at st b = Some zl ->
  exists child st', WithValues b kvs st = Some (Some child, st')
    /\ frame st st' /\ child <> b
    /\ logger_at st' child
       = Some (zap.apply
                 (if (length (handleFields kvs []) =? 0)%nat then zl
                  else zap.with_fields zl (handleFields kvs []))
                 (zap.AddCallerSkip (-1))).
Proof.
  intros Hb.
  apply (derive_spec st b zl _ (fun p => zap_With p (handleFields kvs [])) (-1) Hb).
  intros p Hp. by apply zap_With_spec.
Qed.

Lemma log_at_spec (st : State) (b : loc) (zl : zap.Logger) (lvl : zapcore.Level)
    (msg : string) (fields : list zap.Field) :
  logger_at st b = Some zl ->
  exists st', log_at lvl b msg fields st = Some (zap.write zl lvl msg fields, st')
    /\ extends st st'
    /\ written st' = written st ++ zap.write zl lvl msg fields.
Proof.
  intros Hb. destruct (logger_at_inv _ _ _ Hb) as (bl & Hbl & Hzl).
  unfold log_at, bind, load_base, load_zap, append_written, ret.
  rewrite Hbl, Hzl. eexists. split; [reflexivity|]. by repeat split.
Qed.


(** ** Deriving a child logger *)

Lemma write_carries (zl : zap.Logger) (lvl : zapcore.Level) (msg : string)
    (fields : list zap.Field) (w : zap.Written) :
  In w (zap.write zl lvl msg fields) ->
  zap.w_logger w = zap.name zl
  /\ exists c, In c (zap.core zl)
       /\ zap.w_fields w = zapcore.context c ++ fields.
Proof.
  unfold zap.write. intros (c & <- & Hc)%in_map_iff. split; [done|].
  exists c. split; [|done].
  apply list_elem_of_In, list_elem_of_filter in Hc as [_ Hc].
  by apply list_elem_of_In.
Qed.

Lemma with_fields_context (zl : zap.Logger) (fields : list zap.Field) :
  map zapcore.context
    (zap.core (zap.apply
       (if (length fields =? 0)%nat then zl else zap.with_fields zl fields)
       (zap.AddCallerSkip (-1))))
  = map (fun c => zapcore.context c ++ fields) (zap.core zl).
Proof.
  destruct fields as [|f fields]; simpl.
  - apply map_ext. intros c. by rewrite app_nil_r.
  - by rewrite map_map.
Qed.

Lemma bound_fields_eq (st : State) (b : loc) (zl : zap.Logger) :
  logger_at st b = Some zl ->
  bound_fields st (Some b) = Some (map zapcore.context (zap.core zl)).
Proof. unfold bound_fields. simpl. by intros ->. Qed.

Lemma bound_name_eq (st : State) (b : loc) (zl : zap.Logger) :
  logger_at st b = Some zl -> bound_name st (Some b) = Some (zap.name zl).
Proof. unfold bound_name. simpl. by intros ->. Qed.

(** C6: deriving a child with [WithName] or [WithValues] returns a new
    logger and changes no logger that existed, the parent included; an
    emission through the parent after the derivation writes the records
    it would have written before, under the parent's own name and with
    the parent's own bound fields, while the name segment and the fields
    are bound to the child alone. *)
Theorem derive_child_frame (st : State) (b : loc) (zl : zap.Logger)
    (name : string) (kvs : list iface) :
  logger_at st b = Some zl ->
  (exists child st',
     WithName b name st = Some (Some child, st')
     /\ child <> b /\ frame st st' /\ logger_at st' b = Some zl
     /\ bound_name st' (Some child)
        = Some (if String.eqb name "" then zap.name zl
                else zap.name (zap.named zl name))
     /\ forall lvl msg fields,
          fst <$> log_at lvl b msg fields st'
          = Some (zap.write zl lvl msg fields))
  /\ (exists child st',
     WithValues b kvs st = Some (Some child, st')
     /\ child <> b /\ frame st st' /\ logger_at st' b = Some zl
     /\ bound_fields st' (Some child)
        = Some (map (fun c => zapcore.context c ++ handleFields kvs [])
                    (zap.core zl))
     /\ forall lvl msg fields,
          fst <$> log_at lvl b msg fields st'
          = Some (zap.write zl lvl msg fields))
  /\ forall lvl msg fields,
       fst <$> log_at lvl b msg fields st = Some (zap.write zl lvl msg fields)
       /\ forall w, In w (zap.write zl lvl msg fields) ->
            zap.w_logger w = zap.name zl
            /\ exists c, In c (zap.core zl)
                 /\ zap.w_fields w = zapcore.context c ++ fields.
Proof.
  intros Hb.
  assert (Hemit : forall st', frame st st' -> forall lvl msg fields,
    fst <$> log_at lvl b msg fields st' = Some (zap.write zl lvl msg fields)).
  { intros st' [[Hk _] _] lvl msg fields.
    destruct (log_at_spec st' b zl lvl msg fields) as (st'' & -> & _);
      [by eapply heaps_kept_logger_at|done]. }
  split; [|split].
  - destruct (WithName_spec st b zl name Hb) as (child & st' & He & Hf & Hne & Hc).
    exists child, st'. split_and!; try done.
    + destruct Hf as [[Hk _] _]. by eapply heaps_kept_logger_at.
    + rewrite (bound_name_eq _ _ _ Hc). by destruct (String.eqb name "").
    + by apply Hemit.
  - destruct (WithValues_spec st b zl kvs Hb) as (child & st' & He & Hf & Hne & Hc).
    exists child, st'. split_and!; try done.
    + destruct Hf as [[Hk _] _]. by eapply heaps_kept_logger_at.
    + by rewrite (bound_fields_eq _ _ _ Hc), with_fields_context.
    + by apply Hemit.
  - intros lvl msg fields. split; [apply Hemit, frame_refl|].
    apply write_carries.
Qed.

(** ** The process-wide default *)

Lemma New_spec (opts : Config) (st : State) :
  exists st',
    New opts st = Some ((config_after opts, Some (length (bases st))), st')
    /\ heaps_kept st st'
    /\ logger st' = Some (length (bases st))
    /\ logger_at st' (length (bases st)) = Some (snd (Zap opts)).
Proof.
  unfold New. rewrite <- Zap_config. destruct (Zap opts) as [opts' zl].
  eexists. split; [reflexivity|]. simpl. repeat split.
  - intros. by apply lookup_app_l_Some.
  - intros. by apply lookup_app_l_Some.
  - unfold logger_at. simpl. rewrite list_lookup_middle by done. simpl.
    by apply list_lookup_middle.
Qed.

Lemma defaultLogger_spec (st : State) :
  exists d st',
    defaultLogger st = Some (Some d, st')
    /\ logger st' = Some d
    /\ heaps_kept st st'
    /\ (forall d', logger st = Some d' -> d' = d /\ st' = st)
    /\ (logger st = None ->
        exists opts, logger_at st' d = Some (snd (Zap opts))).
Proof.
  unfold defaultLogger, bind, get_logger.
  destruct (logger st) as [d|] eqn:Hd.
  - exists d, st. rewrite Hd. split_and!; try done.
    by intros d' [= ->].
  - unfold newDefaultLogger, bind.
    match goal with |- context [New ?o st] =>
      destruct (New_spec o st) as (st' & -> & Hk & Hl & Hz); set (opts := o) in *
    end.
    unfold ret, set_logger. simpl.
    eexists _, _. split; [reflexivity|]. simpl. split_and!; try done.
    intros _. exists opts. exact Hz.
Qed.

(** ** Resolving a logger from a context *)

Lemma lookup_key_absent (c : list (iface * iface)) (key : string) :
  (forall k v, In (k, v) c -> context.key_is key k = false) ->
  context.lookup_key c key = VNil.
Proof.
  induction c as [|[k v] c IH]; simpl; [done|]. intros Hno.
  rewrite (Hno k v) by auto. apply IH. intros k' v' Hin. eapply Hno; eauto.
Qed.

Lemma WithContext_eq (st : State) (b : loc) (c : list (iface * iface)) :
  WithContext b (Some c) st
  = match as_Logger (context.lookup_key c LoggerKey) with
    | Some p => Some (Some p, st)
    | None => Some (logger st, st)
    end.
Proof.
  unfold WithContext, bind, lift. simpl.
  by destruct (as_Logger (context.lookup_key c LoggerKey)).
Qed.

(** C7: for a (non-nil) context with nothing attached under LoggerKey, or
    with a value there that is not a Logger, [WithContext] returns the
    process-wide default logger and does not fail; for a context that
    carries a Logger under the key it returns that logger.  This holds of
    the method and of the package-level function, which first makes sure
    that the default exists. *)
Theorem WithContext_lookup (st : State) (b : loc) (c : list (iface * iface)) :
  ((forall k v, In (k, v) c -> context.key_is LoggerKey k = false) ->
     WithContext b (Some c) st = Some (logger st, st))
  /\ (as_Logger (context.lookup_key c LoggerKey) = None ->
     WithContext b (Some c) st = Some (logger st, st))
  /\ (forall p, context.lookup_key c LoggerKey = VLogger p ->
     WithContext b (Some c) st = Some (Some p, st))
  /\ exists d st',
       defaultLogger st = Some (Some d, st') /\ logger st' = Some d
       /\ ((forall k v, In (k, v) c -> context.key_is LoggerKey k = false) ->
             pkg_WithContext (Some c) st = Some (Some d, st'))
       /\ (as_Logger (context.lookup_key c LoggerKey) = None ->
             pkg_WithContext (Some c) st = Some (Some d, st'))
       /\ (forall p, context.lookup_key c LoggerKey = VLogger p ->
             pkg_WithContext (Some c) st = Some (Some p, st')).
Proof.
  rewrite WithContext_eq. repeat split.
  - intros Hno. by rewrite lookup_key_absent.
  - by intros ->.
  - by intros p ->.
  - destruct (defaultLogger_spec st) as (d & st' & Hd & Hl & _).
    exists d, st'. unfold pkg_WithContext.
    rewrite (bind_eq _ _ _ _ _ Hd). simpl. rewrite WithContext_eq, Hl.
    repeat split; try done.
    + intros Hno. by rewrite lookup_key_absent.
    + by intros ->.
    + by intros p ->.
Qed.

(** C10: [WithContext] on the nil context returns the process-wide
    default logger and does not fail: the context is not called (a call
    of [Value] on it would panic).  The package-level function returns
    the default as well, building it first when there is none. *)
Theorem WithContext_nil_ctx (st : State) (b : loc) :
  WithContext b None st = Some (logger st, st)
  /\ context.Value None LoggerKey = None
  /\ exists d st',
       pkg_WithContext None st = Some (Some d, st') /\ logger st' = Some d.
Proof.
  repeat split.
  destruct (defaultLogger_spec st) as (d & st' & Hd & Hl & _).
  exists d, st'. unfold pkg_WithContext. rewrite (bind_eq _ _ _ _ _ Hd).
  simpl. unfold WithContext, get_logger. simpl. by rewrite Hl.
Qed.


(** ** Calls only add to the store *)

Lemma bind_inv {A B} (m : M A) (k : A -> M B) (st st' : State) (r : B) :
  bind m k st = Some (r, st') ->
  exists a st1, m st = Some (a, st1) /\ k a st1 = Some (r, st').
Proof.
  unfold bind. destruct (m st) as [[a st1]|]; [|done]. by exists a, st1.
Qed.

Lemma preserves_ret {A} (a : A) : preserves (ret a).
Proof. intros st a' st' [= _ <-]. apply extends_refl. Qed.

Lemma preserves_panic {A} : preserves (@panic A).
Proof. by intros st a st'. Qed.

Lemma preserves_bind {A B} (m : M A) (k : A -> M B) :
  preserves m -> (forall a, preserves (k a)) -> preserves (bind m k).
Proof.
  intros Hm Hk st r st' (a & st1 & H1 & H2)%bind_inv.
  eapply extends_trans; [by eapply Hm|by eapply Hk].
Qed.

Lemma preserves_lift {A} (o : option A) : preserves (lift o).
Proof. intros st a st'. destruct o; [|done]. intros [= _ <-]. apply extends_refl. Qed.

Lemma preserves_get_logger : preserves get_logger.
Proof. intros st a st' [= _ <-]. apply extends_refl. Qed.

Lemma preserves_load_zap (p : loc) : preserves (load_zap p).
Proof.
  intros st a st'. unfold load_zap. destruct (zaps st !! p); [|done].
  intros [= _ <-]. apply extends_refl.
Qed.

Lemma preserves_load_base (b : loc) : preserves (load_base b).
Proof.
  intros st a st'. unfold load_base. destruct (bases st !! b); [|done].
  intros [= _ <-]. apply extends_refl.
Qed.

Lemma preserves_alloc_zap (zl : zap.Logger) : preserves (alloc_zap zl).
Proof.
  intros st a st' [= _ <-]. split; [split|done]; simpl; [|done].
  intros. by apply lookup_app_l_Some.
Qed.

Lemma preserves_alloc_base (bl : baseLogger) : preserves (alloc_base bl).
Proof.
  intros st a st' [= _ <-]. split; [split|done]; simpl; [done|].
  intros. by apply lookup_app_l_Some.
Qed.

Lemma preserves_append_written (ws : list zap.Written) :
  preserves (append_written ws).
Proof. by intros st a st' [= _ <-]. Qed.

Lemma preserves_call {A} (lg : Logger) (method : loc -> M A) :
  (forall b, preserves (method b)) -> preserves (call lg method).
Proof. intros Hm. destruct lg; [apply Hm|apply preserves_panic]. Qed.

Create HintDb preserves.

#[local] Hint Resolve preserves_ret preserves_panic preserves_lift
  preserves_get_logger preserves_load_zap preserves_load_base
  preserves_alloc_zap preserves_alloc_base preserves_append_written
  : preserves.

Ltac preserves_steps :=
  repeat first
    [ solve [auto with preserves]
    | apply preserves_call; intros ?
    | apply preserves_bind; [|intros ?] ].

Lemma preserves_newLoggerWithExtraSkip (l : loc) (k : Z) :
  preserves (newLoggerWithExtraSkip l k).
Proof. unfold newLoggerWithExtraSkip, zap_WithOptions. preserves_steps. Qed.

Lemma preserves_AddCallerSkip (b : loc) (k : Z) : preserves (AddCallerSkip b k).
Proof.
  unfold AddCallerSkip. preserves_steps.
Qed.

Lemma preserves_WithName (b : loc) (name : string) : preserves (WithName b name).
Proof.
  unfold WithName, zap_Named. destruct (String.eqb name ""); preserves_steps.
Qed.

Lemma preserves_WithValues (b : loc) (kvs : list iface) :
  preserves (WithValues b kvs).
Proof.
  unfold WithValues, zap_With.
  destruct (length (handleFields kvs []) =? 0)%nat; preserves_steps.
Qed.

Lemma preserves_WithContext (b : loc) (ctx : context.Context) :
  preserves (WithContext b ctx).
Proof.
  unfold WithContext. destruct (context.is_nil ctx); preserves_steps.
  destruct (as_Logger _); preserves_steps.
Qed.

Lemma preserves_log_at (lvl : zapcore.Level) (b : loc) (msg : string)
    (fields : list zap.Field) :
  preserves (log_at lvl b msg fields).
Proof. unfold log_at. preserves_steps. Qed.

#[local] Hint Resolve preserves_AddCallerSkip preserves_WithName
  preserves_WithValues preserves_WithContext preserves_log_at : preserves.

(** ** The default logger has no bound fields *)

Lemma Zap_no_fields (opts : Config) : no_fields (snd (Zap opts)).
Proof.
  unfold no_fields. rewrite Zap_cores.
  destruct (FilePerLevel opts); by repeat constructor.
Qed.

Lemma extends_default_plain (st st' : State) :
  extends st st' -> default_plain st -> default_plain st'.
Proof.
  intros [Hk Hl] Hp b Hb. rewrite Hl in Hb.
  destruct (Hp b Hb) as (zl & Hzl & Hplain). exists zl.
  split; [by eapply heaps_kept_logger_at|done].
Qed.

Lemma defaultLogger_plain (st : State) :
  default_plain st ->
  exists d zl st1,
    defaultLogger st = Some (Some d, st1)
    /\ logger st1 = Some d /\ logger_at st1 d = Some zl
    /\ no_fields zl /\ zap.name zl = "" /\ default_plain st1.
Proof.
  intros Hp.
  destruct (defaultLogger_spec st) as (d & st1 & Hd & Hl & Hk & Hsome & Hnone).
  assert (Hzl : exists zl, logger_at st1 d = Some zl /\ no_fields zl
                           /\ zap.name zl = "").
  { destruct (logger st) as [d'|] eqn:Hst.
    - destruct (Hsome d' eq_refl) as [-> ->]. by apply Hp.
    - destruct (Hnone eq_refl) as (opts & Hz). eexists. split; [exact Hz|].
      split; [apply Zap_no_fields|apply Zap_name]. }
  destruct Hzl as (zl & Hzl & Hnf & Hnm).
  exists d, zl, st1. split_and!; try done.
  intros b Hb. rewrite Hl in Hb. injection Hb as <-. by exists zl.
Qed.

Lemma exec_default_plain (o : op) (st st' : State) :
  default_plain st -> exec o st = Some st' -> default_plain st'.
Proof.
  intros Hp He.
  assert (Hmethod : forall A (m : M A),
    preserves m -> snd <$> m st = Some st' -> default_plain st').
  { intros A m Hm Hs. destruct (m st) as [[a st2]|] eqn:Hms; [|done].
    injection Hs as <-. eapply extends_default_plain; [by eapply Hm|done]. }
  assert (Hpkg : forall A (k : Logger -> M A),
    (forall d, preserves (k d)) ->
    snd <$> bind defaultLogger k st = Some st' -> default_plain st').
  { intros A k Hk Hs.
    destruct (defaultLogger_plain st Hp) as (d & zl & st1 & Hd & _ & _ & _ & _ & Hp1).
    rewrite (bind_eq _ _ _ _ _ Hd) in Hs.
    destruct (k (Some d) st1) as [[a st2]|] eqn:Hks; [|done].
    injection Hs as <-. eapply extends_default_plain; [by eapply Hk|done]. }
  destruct o; simpl in He.
  - destruct (New_spec opts st) as (st1 & Hn & _ & Hl & Hz).
    rewrite Hn in He. injection He as <-.
    intros b Hb. rewrite Hl in Hb. injection Hb as <-.
    eexists. split; [exact Hz|]. split; [apply Zap_no_fields|apply Zap_name].
  - eapply Hmethod; [|exact He]. auto with preserves.
  - eapply Hmethod; [|exact He]. auto with preserves.
  - eapply Hmethod; [|exact He]. auto with preserves.
  - eapply Hmethod; [|exact He]. auto with preserves.
  - eapply Hmethod; [|exact He]. auto with preserves.
  - eapply Hpkg; [|exact He]. intros d. preserves_steps.
  - eapply Hpkg; [|exact He]. intros d. preserves_steps.
  - eapply Hpkg; [|exact He]. intros d. preserves_steps.
  - eapply Hpkg; [|exact He]. intros d. preserves_steps.
Qed.

Lemma reachable_default_plain (st : State) : reachable st -> default_plain st.
Proof.
  induction 1 as [|st st' o _ IH He]; [by intros b|].
  by eapply exec_default_plain.
Qed.

(** C9: the package-level [WithValues] hands its arguments on as one
    slice, so the coercion sees a single element that can start no pair
    and returns no field; whatever the arguments, the call returns a
    logger to which no structured field is bound. *)
Theorem pkg_WithValues_no_fields (st : State) (kvs : list iface) :
  reachable st ->
  handleFields [VSlice kvs] [] = []
  /\ exists child st' fs,
       pkg_WithValues kvs st = Some (Some child, st')
       /\ bound_fields st' (Some child) = Some fs
       /\ Forall (fun f => f = []) fs.
Proof.
  intros Hr. split; [done|].
  destruct (defaultLogger_plain st (reachable_default_plain st Hr))
    as (d & zl & st1 & Hd & _ & Hzl & Hnf & _).
  destruct (WithValues_spec st1 d zl [VSlice kvs] Hzl)
    as (c1 & st2 & Hw & _ & _ & Hc1).
  change (handleFields [VSlice kvs] []) with (@nil zap.Field) in Hc1.
  simpl in Hc1.
  destruct (AddCallerSkip_spec st2 c1 _ (-1) Hc1) as (c2 & st3 & Ha & _ & _ & Hc2).
  exists c2, st3. eexists. split_and!.
  - unfold pkg_WithValues. rewrite (bind_eq _ _ _ _ _ Hd). simpl.
    rewrite (bind_eq _ _ _ _ _ Hw). simpl. exact Ha.
  - by apply bound_fields_eq.
  - apply Forall_map. exact Hnf.
Qed.


(** * Further properties of the code *)

(** ** Key-value coercion, continued *)

(** Induction along the pairs [leading_pairs] consumes. *)
Lemma leading_pairs_induction (P : list iface -> Prop) :
  (forall args, leading_pairs args = [] -> P args) ->
  (forall k v rest, P rest -> P (VString k :: v :: rest)) ->
  forall args, P args.
Proof.
  intros Hstop Hpair args.
  assert (H : forall n args, length args <= n -> P args).
  { clear args. induction n as [|n IH]; intros args Hn.
    - destruct args; [by apply Hstop|simpl in Hn; lia].
    - destruct args as [|x [|v rest]]; try by apply Hstop.
      + apply Hstop. by destruct x.
      + destruct x; try by apply Hstop.
        apply Hpair, IH. simpl in Hn. lia. }
  by apply (H (length args)).
Qed.

Lemma leading_pairs_length (args : list iface) :
  2 * length (leading_pairs args) <= length args.
Proof.
  induction args as [args Hstop|k v rest IH] using leading_pairs_induction.
  - rewrite Hstop. simpl. lia.
  - simpl in *. lia.
Qed.

Lemma leading_pairs_lookup (args : list iface) :
  forall (j : nat) (f : zap.Field),
    leading_pairs args !! j = Some f ->
    args !! (2 * j) = Some (VString (zapcore.Key f))
    /\ args !! (2 * j + 1) = Some (zapcore.Interface f).
Proof.
  induction args as [args Hstop|k v rest IH] using leading_pairs_induction;
    intros j f Hj.
  - by rewrite Hstop in Hj.
  - destruct j as [|j]; simpl in Hj.
    + by injection Hj as <-.
    + destruct (IH j f Hj) as [H1 H2].
      replace (2 * S j) with (S (S (2 * j))) by lia. by simpl.
Qed.

Lemma leading_pairs_alternate (kvs : list (string * iface)) (rest : list iface) :
  leading_pairs (alternate kvs ++ rest)
  = map (fun kv => zap.Any (fst kv) (snd kv)) kvs ++ leading_pairs rest.
Proof.
  induction kvs as [|[k v] kvs IH]; [done|].
  simpl. simpl in IH. by rewrite IH.
Qed.

(** X1: the pre-converted fields are appended, untouched, after the
    fields coerced from the arguments, and the result never outgrows the
    capacity the source allocates, len(args)/2 + len(additional). *)
Theorem handleFields_additional (args : list iface) (additional : list zap.Field) :
  handleFields args additional = handleFields args [] ++ additional
  /\ length (handleFields args additional)
     <= length args / 2 + length additional.
Proof.
  rewrite !handleFields_spec, app_nil_r. split; [done|].
  rewrite length_app. apply Nat.add_le_mono_r.
  apply Nat.div_le_lower_bound; [done|]. apply leading_pairs_length.
Qed.

(** X2: the j-th field the coercion returns comes from the arguments at
    positions 2j and 2j+1: its key is the string at 2j and its value is
    the argument at 2j+1. *)
Theorem handleFields_positions (args : list iface) (j : nat) (f : zap.Field) :
  handleFields args [] !! j = Some f ->
  args !! (2 * j) = Some (VString (zapcore.Key f))
  /\ args !! (2 * j + 1) = Some (zapcore.Interface f).
Proof.
  rewrite handleFields_spec, app_nil_r. apply leading_pairs_lookup.
Qed.

(** X3: a well-formed alternating list is coerced to exactly its pairs,
    whatever the values are (a zap.Field among the values included); one
    more element after the pairs is dropped; and so is everything from
    the first key that is not a string. *)
Theorem handleFields_round_trip (kvs : list (string * iface)) :
  handleFields (alternate kvs) []
  = map (fun kv => zap.Any (fst kv) (snd kv)) kvs
  /\ (forall x, handleFields (alternate kvs ++ [x]) []
                = map (fun kv => zap.Any (fst kv) (snd kv)) kvs)
  /\ (forall x rest, is_string x = false ->
        handleFields (alternate kvs ++ x :: rest) []
        = map (fun kv => zap.Any (fst kv) (snd kv)) kvs).
Proof.
  split; [|split].
  - rewrite <- (app_nil_r (alternate kvs)) at 1.
    by rewrite handleFields_spec, leading_pairs_alternate, !app_nil_r.
  - intros x.
    by rewrite handleFields_spec, leading_pairs_alternate,
      leading_pairs_single, !app_nil_r.
  - intros x rest Hx.
    rewrite handleFields_spec, leading_pairs_alternate, !app_nil_r.
    destruct x; try discriminate; by rewrite app_nil_r.
Qed.


(** ** Severity names, continued *)

Lemma equal_fold_byte_lower (a b : ascii) :
  equal_fold_byte a b = true -> is_ascii_byte a = true ->
  is_ascii_byte b = true /\ lower_byte a = lower_byte b.
Proof.
  unfold equal_fold_byte. intros [Hab|Hab]%orb_true_iff Ha.
  - by apply Ascii.eqb_eq in Hab as <-.
  - apply andb_true_iff in Hab as [[Hla Hlb]%andb_true_iff Hx].
    apply N.eqb_eq in Hx.
    assert (Hb : b = ascii_of_N (N.lxor (byte_of a) 32)).
    { rewrite <- Hx, <- N.lxor_assoc, N.lxor_nilpotent, N.lxor_0_l.
      unfold byte_of. by rewrite ascii_N_embedding. }
    subst b. clear Hx. revert Ha Hla Hlb. each_byte a.
Qed.

Lemma equal_fold_lower (s : string) :
  forall t, equal_fold s t = true -> isASCII s = true ->
    isASCII t = true /\ lower_bytes s = lower_bytes t.
Proof.
  induction s as [|a s IH]; intros [|b t]; simpl; try done.
  intros [Hab Hst]%andb_true_iff [Ha Hs]%andb_true_iff.
  destruct (equal_fold_byte_lower a b Hab Ha) as [-> ->].
  by destruct (IH t Hst Hs) as [-> ->].
Qed.

(** X4: [logLevel] does not see the case of ASCII letters: two ASCII
    strings that are equal up to letter case resolve to the same level,
    recognized or not. *)
Theorem logLevel_equal_fold (s t : string) :
  isASCII s = true -> equal_fold s t = true -> logLevel s = logLevel t.
Proof.
  intros Hs Hst. destruct (equal_fold_lower s t Hst Hs) as [Ht Hl].
  unfold logLevel. by rewrite !strings_ToLower_ascii, Hl.
Qed.


(** ** Construction, continued *)

Lemma Zap_addCaller (opts : Config) : zap.addCaller (snd (Zap opts)) = true.
Proof. unfold Zap. destruct (FilePerLevel opts); by zap_cores. Qed.

Lemma Zap_callerSkip (opts : Config) : zap.callerSkip (snd (Zap opts)) = 2%Z.
Proof. unfold Zap. destruct (FilePerLevel opts); by zap_cores. Qed.

Lemma core_for_out (opts : Config) (fileName : string)
    (level : zapcore.LevelEnabler) :
  zapcore.out (core_for opts fileName level)
  = out_for opts (if String.eqb fileName "" then LogFile opts else fileName).
Proof. done. Qed.

(** The logger [Zap] builds, field by field. *)
Lemma Zap_logger (opts : Config) :
  snd (Zap opts)
  = {| zap.core :=
         if FilePerLevel opts then
           [core_for opts "debug.log" debugPriority;
            core_for opts "info.log" infoPriority;
            core_for opts "warn.log" warnPriority;
            core_for opts "error.log" errorPriority]
         else
           [core_for opts (LogFile opts)
              (zapcore.AtomicLevel (logLevel (LogLevel opts)))];
       zap.name := ""; zap.addCaller := true; zap.callerSkip := 2;
       zap.addStack := zapcore.AtomicLevel (stack_threshold opts) |}.
Proof.
  pose proof (Zap_cores opts) as Hc. pose proof (Zap_name opts) as Hn.
  pose proof (Zap_addCaller opts) as Ha. pose proof (Zap_callerSkip opts) as Hk.
  pose proof (Zap_addStack opts) as Hs.
  destruct (snd (Zap opts)) as [c n a k s]. simpl in *. by subst.
Qed.

Lemma effective_dir_config_after (opts : Config) :
  effective_dir (config_after opts) = effective_dir opts.
Proof.
  unfold effective_dir at 1. unfold config_after. cbn [LogDir].
  unfold effective_dir.
  destruct (String.eqb (LogDir opts) "") eqn:Hd.
  - by destruct (String.eqb (os_Getenv "LOG_DIR") "").
  - by rewrite Hd.
Qed.

Lemma stack_threshold_config_after (opts : Config) :
  stack_threshold (config_after opts) = stack_threshold opts.
Proof.
  unfold stack_threshold, config_after. cbn [StacktraceLevel].
  destruct (String.eqb (StacktraceLevel opts) "") eqn:Hs; [done|].
  by rewrite Hs.
Qed.

Lemma core_for_config_after (opts : Config) (fileName : string)
    (level : zapcore.LevelEnabler) :
  core_for (config_after opts) fileName level = core_for opts fileName level.
Proof. unfold core_for. by rewrite effective_dir_config_after. Qed.

Lemma config_after_idem (opts : Config) :
  config_after (config_after opts) = config_after opts.
Proof.
  unfold config_after at 1. rewrite effective_dir_config_after.
  unfold config_after. cbn [StacktraceLevel LogFile MaxSize MaxBackups MaxAge
    Compress LogLevel JsonEncode Stdout FilePerLevel].
  destruct (String.eqb (StacktraceLevel opts) "") eqn:Hs; [done|].
  by rewrite Hs.
Qed.

(** X5: every sink [Zap] builds, in either mode, encodes as JSON exactly
    when JsonEncode is set (console otherwise), writes to standard output
    first exactly when Stdout is set, and after that to one rotating file
    in the effective directory that carries MaxSize, MaxBackups, MaxAge
    and Compress of the configuration and uses local time; no sink starts
    with bound fields. *)
Theorem Zap_sinks_settings (opts : Config) (c : zapcore.Core) :
  In c (zap.core (snd (Zap opts))) ->
  zapcore.enc c
  = (if JsonEncode opts then zapcore.JSONEncoder else zapcore.ConsoleEncoder)
  /\ zapcore.context c = []
  /\ exists name : string,
       zapcore.out c = out_for opts name
       /\ if FilePerLevel opts
          then In name ["debug.log"; "info.log"; "warn.log"; "error.log"]
          else name = LogFile opts.
Proof.
  rewrite Zap_cores. destruct (FilePerLevel opts); simpl.
  - intros [<-|[<-|[<-|[<-|[]]]]]; (split; [done|]); (split; [done|]);
      eexists; (split; [reflexivity|]); simpl; auto.
  - intros [<-|[]]. split; [done|]. split; [done|].
    exists (LogFile opts). split; [|done].
    rewrite core_for_out. by destruct (String.eqb (LogFile opts) "").
Qed.

(** X6: construction is idempotent on the configuration it hands back:
    building again from the record the first construction left behind
    leaves that record as it is and builds the same logger. *)
Theorem Zap_idempotent (opts : Config) : Zap (fst (Zap opts)) = Zap opts.
Proof.
  rewrite Zap_config.
  rewrite (surjective_pairing (Zap (config_after opts))).
  rewrite (surjective_pairing (Zap opts)).
  rewrite !Zap_config, !Zap_logger, config_after_idem.
  rewrite stack_threshold_config_after, !core_for_config_after.
  reflexivity.
Qed.

(** X7: in the split mode an emission at debug level or above is written
    by exactly one sink, the one on the file of its severity (debug.log,
    info.log, warn.log, and error.log for error and everything above),
    as one record with the fields of the call; an emission below debug
    level is written by no sink. *)
Theorem Zap_split_exactly_one (opts : Config) (lev : zapcore.Level)
    (msg : string) (fields : list zap.Field) :
  FilePerLevel opts = true ->
  ((zapcore.DebugLevel <= lev)%Z ->
     zap.write (snd (Zap opts)) lev msg fields
     = [record_of opts (severity_file lev) lev msg fields])
  /\ ((lev < zapcore.DebugLevel)%Z ->
     zap.write (snd (Zap opts)) lev msg fields = []).
Proof.
  intros Hsplit. unfold zap.write. rewrite Zap_logger, Hsplit.
  cbn [zap.core zap.name zap.addStack].
  rewrite !filter_cons, filter_nil.
  unfold record_of, severity_file.
  cbn [core_for zapcore.level zapcore.Enabled debugPriority infoPriority
       warnPriority errorPriority].
  unfold zapcore.ErrorLevel, zapcore.DebugLevel, zapcore.InfoLevel,
    zapcore.WarnLevel.
  split; intros Hlev;
    destruct (Z.eqb_spec lev (-1)), (Z.eqb_spec lev 0), (Z.eqb_spec lev 1),
      (Z.leb_spec 2 lev); try lia; repeat case_decide; try done.
Qed.

(** X8: in the split mode the configured minimum severity plays no part:
    whatever LogLevel says, the same logger is built. *)
Theorem Zap_split_ignores_LogLevel (opts : Config) (lvl : string) :
  FilePerLevel opts = true ->
  snd (Zap (set_LogLevel lvl opts)) = snd (Zap opts).
Proof.
  intros Hsplit. rewrite !Zap_logger. cbn [set_LogLevel FilePerLevel].
  by rewrite Hsplit.
Qed.

(** X9: for every configuration, a record carries a stack trace exactly
    when its level is at or above the level named by StacktraceLevel
    ("error" when that is empty); a name [logLevel] does not know gives
    the debug level, that is, a stack trace on every record from debug
    upwards. *)
Theorem Zap_stacktrace_threshold (opts : Config) (lvl : zapcore.Level)
    (msg : string) (fields : list zap.Field) (w : zap.Written) :
  In w (zap.write (snd (Zap opts)) lvl msg fields) ->
  (zap.w_stack w = true <-> (stack_threshold opts <= lvl)%Z)
  /\ ((forall name l, In (name, l) level_names ->
         strings_ToLower unicode_lower (StacktraceLevel opts) <> name) ->
      StacktraceLevel opts <> "" ->
      (zap.w_stack w = true <-> (zapcore.DebugLevel <= lvl)%Z)).
Proof.
  unfold zap.write. intros (c & <- & _)%in_map_iff. cbn [zap.w_stack].
  rewrite Zap_logger. cbn [zap.addStack zapcore.Enabled].
  split; [apply Z.leb_le|].
  intros Hno Hne. unfold stack_threshold.
  destruct (String.eqb_spec (StacktraceLevel opts) "") as [He|_]; [done|].
  rewrite (logLevel_other _ Hno). apply Z.leb_le.
Qed.


(** ** Derived loggers, continued *)




















(** ** The process-wide default, continued *)

(** The store after [New], written out. *)
Lemma New_eq (opts : Config) (st : State) :
  New opts st
  = Some ((config_after opts, Some (length (bases st))),
          {| zaps := zaps st ++ [snd (Zap opts)];
             bases := bases st ++ [{| Logger_ := length (zaps st) |}];
             logger := Some (length (bases st));
             zap_globalL := Some (length (zaps st));
             written := written st |}).
Proof. unfold New. rewrite <- Zap_config. by destruct (Zap opts). Qed.

Lemma logger_at_snoc (zs : list zap.Logger) (bs : list baseLogger)
    (zl : zap.Logger) (lg : Logger) (g : option loc) (ws : list zap.Written) :
  logger_at {| zaps := zs ++ [zl]; bases := bs ++ [{| Logger_ := length zs |}];
               logger := lg; zap_globalL := g; written := ws |} (length bs)
  = Some zl.
Proof.
  unfold logger_at. simpl. rewrite list_lookup_middle by done. simpl.
  by apply list_lookup_middle.
Qed.

Lemma defaultLogger_set (st : State) (d : loc) :
  logger st = Some d -> defaultLogger st = Some (Some d, st).
Proof.
  intros Hd. unfold defaultLogger, bind, get_logger. cbv beta iota.
  rewrite Hd. cbv beta iota. by rewrite Hd.
Qed.

Lemma defaultLogger_unset (st : State) :
  logger st = None ->
  defaultLogger st
  = Some (Some (length (bases st)),
          {| zaps := zaps st ++ [snd (Zap default_opts)];
             bases := bases st ++ [{| Logger_ := length (zaps st) |}];
             logger := Some (length (bases st));
             zap_globalL := Some (length (zaps st));
             written := written st |}).
Proof.
  intros Hd. unfold defaultLogger, bind, get_logger. cbv beta iota.
  rewrite Hd. cbv beta iota.
  unfold newDefaultLogger, bind. fold default_opts.
  by rewrite (New_eq default_opts st).
Qed.

(** X14: [New] returns a logger at a fresh address and makes it the
    process-wide default and zap's global logger; it writes nothing and
    changes no logger that existed.  From then on the package-level
    functions go through that logger, until a later [New] replaces the
    default, which leaves the earlier logger as it was built. *)
Theorem New_sets_default (opts : Config) (st : State) :
  exists b st1,
    New opts st = Some ((config_after opts, Some b), st1)
    /\ bases st !! b = None
    /\ logger st1 = Some b
    /\ logger_at st1 b = Some (snd (Zap opts))
    /\ zap_globalL st1 = Logger_ <$> bases st1 !! b
    /\ written st1 = written st
    /\ heaps_kept st st1
    /\ defaultLogger st1 = Some (Some b, st1)
    /\ (forall lvl msg fields,
          pkg_log lvl msg fields st1 = log_at lvl b msg fields st1)
    /\ forall opts2, exists b2 st2,
         New opts2 st1 = Some ((config_after opts2, Some b2), st2)
         /\ b2 <> b /\ logger st2 = Some b2
         /\ logger_at st2 b = Some (snd (Zap opts))
         /\ logger_at st2 b2 = Some (snd (Zap opts2)).
Proof.
  pose proof (New_eq opts st) as HN.
  match type of HN with _ = Some (_, ?s) => set (st1 := s) in * end.
  assert (Hl : logger st1 = Some (length (bases st))) by done.
  exists (length (bases st)), st1. split; [exact HN|]. split_and!.
  - apply lookup_ge_None. lia.
  - done.
  - apply logger_at_snoc.
  - simpl. by rewrite list_lookup_middle.
  - done.
  - split; simpl; intros; by apply lookup_app_l_Some.
  - by apply defaultLogger_set.
  - intros lvl msg fields. unfold pkg_log.
    by rewrite (bind_eq _ _ _ _ _ (defaultLogger_set st1 _ Hl)).
  - intros opts2. eexists _, _. split; [apply New_eq|]. simpl. split_and!.
    + rewrite length_app. simpl. lia.
    + done.
    + unfold logger_at. simpl.
      rewrite (lookup_app_l_Some _ _ _ {| Logger_ := length (zaps st) |})
        by (by apply list_lookup_middle).
      simpl. apply lookup_app_l_Some. by apply list_lookup_middle.
    + apply logger_at_snoc.
Qed.

(** X15: [defaultLogger] builds the default only when there is none:
    with a default in place it returns it and leaves the store alone;
    with none it builds one from the built-in configuration (JSON, the
    four severity files in the directory named by LOG_DIR, not mirrored
    to standard output, rotation settings at zero, stack traces from
    error upwards, caller skip 2) and a second call returns the same
    logger without building again. *)
Theorem defaultLogger_lazy (st : State) :
  exists d st1,
    defaultLogger st = Some (Some d, st1)
    /\ defaultLogger st1 = Some (Some d, st1)
    /\ (forall d0, logger st = Some d0 -> d = d0 /\ st1 = st)
    /\ (logger st = None ->
        exists zl, logger_at st1 d = Some zl
          /\ map (fun c => (zapcore.enc c, zapcore.out c)) (zap.core zl)
             = map (fun name =>
                      (zapcore.JSONEncoder,
                       [zapcore.File
                          {| lumberjack.Filename :=
                               filepath_Join (os_Getenv "LOG_DIR") name;
                             lumberjack.MaxSize := 0;
                             lumberjack.MaxBackups := 0;
                             lumberjack.MaxAge := 0;
                             lumberjack.Compress := false;
                             lumberjack.LocalTime := true |}]))
                   ["debug.log"; "info.log"; "warn.log"; "error.log"]
          /\ map zapcore.level (zap.core zl)
             = [debugPriority; infoPriority; warnPriority; errorPriority]
          /\ zap.addStack zl = zapcore.AtomicLevel zapcore.ErrorLevel
          /\ zap.callerSkip zl = 2%Z /\ zap.name zl = "").
Proof.
  destruct (logger st) as [d|] eqn:Hd.
  - exists d, st. rewrite !(defaultLogger_set st d Hd). split_and!; try done.
    by intros d0 [= ->].
  - eexists _, _. split; [by apply defaultLogger_unset|]. split_and!; try done.
    intros _. eexists. split; [apply logger_at_snoc|].
    rewrite Zap_logger. cbn [zap.core zap.addStack zap.callerSkip zap.name
      default_opts FilePerLevel map].
    split_and!; try done.
    unfold core_for, effective_dir. cbn [default_opts LogDir JsonEncode Stdout
      MaxSize MaxBackups MaxAge Compress zapcore.enc zapcore.out].
    by destruct (String.eqb (os_Getenv "LOG_DIR") "").
Qed.


(** ** No dangling logger *)

Lemma keeps_live_ret {A} (a : A) : keeps_live (ret a).
Proof. by intros st a' st' Hl [= _ <-]. Qed.

Lemma keeps_live_panic {A} : keeps_live (@panic A).
Proof. by intros st a st'. Qed.

Lemma keeps_live_bind {A B} (m : M A) (k : A -> M B) :
  keeps_live m -> (forall a, keeps_live (k a)) -> keeps_live (bind m k).
Proof.
  intros Hm Hk st r st' Hl (a & st1 & H1 & H2)%bind_inv.
  eapply Hk; [|exact H2]. by eapply Hm.
Qed.

Lemma keeps_live_lift {A} (o : option A) : keeps_live (lift o).
Proof. intros st a st' Hl. destruct o; [|done]. by intros [= _ <-]. Qed.

Lemma keeps_live_get_logger : keeps_live get_logger.
Proof. by intros st a st' Hl [= _ <-]. Qed.

Lemma keeps_live_load_zap (p : loc) : keeps_live (load_zap p).
Proof.
  intros st a st' Hl. unfold load_zap. destruct (zaps st !! p); [|done].
  by intros [= _ <-].
Qed.

Lemma keeps_live_load_base (b : loc) : keeps_live (load_base b).
Proof.
  intros st a st' Hl. unfold load_base. destruct (bases st !! b); [|done].
  by intros [= _ <-].
Qed.

Lemma keeps_live_append_written (ws : list zap.Written) :
  keeps_live (append_written ws).
Proof. by intros st a st' Hl [= _ <-]. Qed.

Lemma keeps_live_alloc_zap (zl : zap.Logger) : keeps_live (alloc_zap zl).
Proof.
  intros st a st' [Hb Hd] [= _ <-]. split; simpl; [|done].
  intros b bl Hbl. destruct (Hb b bl Hbl) as [z Hz]. exists z.
  by apply lookup_app_l_Some.
Qed.

Lemma keeps_live_call {A} (lg : Logger) (method : loc -> M A) :
  (forall b, keeps_live (method b)) -> keeps_live (call lg method).
Proof. intros Hm. destruct lg; [apply Hm|apply keeps_live_panic]. Qed.

(** A store stays live when a fresh [*zap.Logger] and a [*baseLogger]
    wrapping it are added, whatever the default is set to among the
    loggers then present. *)
Lemma all_live_snoc (st : State) (zl : zap.Logger) (lg : Logger)
    (g : option loc) (ws : list zap.Written) :
  all_live st ->
  (forall d, lg = Some d -> d <= length (bases st)) ->
  all_live {| zaps := zaps st ++ [zl];
              bases := bases st ++ [{| Logger_ := length (zaps st) |}];
              logger := lg; zap_globalL := g; written := ws |}.
Proof.
  intros [Hb Hd] Hlg. split; simpl.
  - intros b bl [Hbl|[Hlen Hbl]]%lookup_app_Some.
    + destruct (Hb b bl Hbl) as [z Hz]. exists z. by apply lookup_app_l_Some.
    + destruct (b - length (bases st)) as [|n]; [|done].
      injection Hbl as <-. simpl. exists zl. by apply list_lookup_middle.
  - intros d Hdl. apply lookup_lt_is_Some. rewrite length_app. simpl.
    specialize (Hlg d Hdl). lia.
Qed.

Lemma all_live_default_lt (st : State) (d : loc) :
  all_live st -> logger st = Some d -> d < length (bases st).
Proof. intros [_ Hd] Hl. by apply lookup_lt_is_Some, Hd. Qed.

Lemma keeps_live_newLoggerWithExtraSkip (l : loc) (k : Z) :
  keeps_live (newLoggerWithExtraSkip l k).
Proof.
  intros st a st' Hl. unfold newLoggerWithExtraSkip, zap_WithOptions, bind,
    load_zap, alloc_zap, alloc_base, ret.
  destruct (zaps st !! l); [|done]. simpl. intros [= _ <-].
  apply (all_live_snoc st); [done|].
  intros d Hd. apply (all_live_default_lt st d Hl) in Hd. lia.
Qed.

Lemma keeps_live_New (opts : Config) : keeps_live (New opts).
Proof.
  intros st a st' Hl. rewrite New_eq. intros [= _ <-].
  apply (all_live_snoc st); [done|]. by intros d [= <-].
Qed.

Lemma keeps_live_defaultLogger : keeps_live defaultLogger.
Proof.
  intros st a st' Hl. destruct (logger st) as [d|] eqn:Hd.
  - rewrite (defaultLogger_set st d Hd). by intros [= _ <-].
  - rewrite (defaultLogger_unset st Hd). intros [= _ <-].
    apply (all_live_snoc st); [done|]. by intros d [= <-].
Qed.

#[local] Hint Resolve keeps_live_ret keeps_live_panic keeps_live_lift
  keeps_live_get_logger keeps_live_load_zap keeps_live_load_base
  keeps_live_append_written keeps_live_alloc_zap
  keeps_live_newLoggerWithExtraSkip keeps_live_New keeps_live_defaultLogger
  : preserves.

Ltac keeps_live_steps :=
  repeat first
    [ solve [auto with preserves]
    | apply keeps_live_call; intros ?
    | apply keeps_live_bind; [|intros ?] ].

Lemma keeps_live_AddCallerSkip (b : loc) (k : Z) : keeps_live (AddCallerSkip b k).
Proof. unfold AddCallerSkip. keeps_live_steps. Qed.

Lemma keeps_live_WithName (b : loc) (name : string) : keeps_live (WithName b name).
Proof.
  unfold WithName, zap_Named. destruct (String.eqb name ""); keeps_live_steps.
Qed.

Lemma keeps_live_WithValues (b : loc) (kvs : list iface) :
  keeps_live (WithValues b kvs).
Proof.
  unfold WithValues, zap_With.
  destruct (length (handleFields kvs []) =? 0)%nat; keeps_live_steps.
Qed.

Lemma keeps_live_WithContext (b : loc) (ctx : context.Context) :
  keeps_live (WithContext b ctx).
Proof.
  unfold WithContext. destruct (context.is_nil ctx); keeps_live_steps.
  destruct (as_Logger _); keeps_live_steps.
Qed.

Lemma keeps_live_log_at (lvl : zapcore.Level) (b : loc) (msg : string)
    (fields : list zap.Field) :
  keeps_live (log_at lvl b msg fields).
Proof. unfold log_at. keeps_live_steps. Qed.

#[local] Hint Resolve keeps_live_AddCallerSkip keeps_live_WithName
  keeps_live_WithValues keeps_live_WithContext keeps_live_log_at : preserves.

Lemma exec_all_live (o : op) (st st' : State) :
  all_live st -> exec o st = Some st' -> all_live st'.
Proof.
  intros Hl He.
  assert (H : forall A (m : M A),
    keeps_live m -> snd <$> m st = Some st' -> all_live st').
  { intros A m Hm Hs. destruct (m st) as [[a st2]|] eqn:Hms; [|done].
    injection Hs as <-. by eapply Hm. }
  destruct o; simpl in He; (eapply H; [|exact He]);
    try solve [auto with preserves].
  - unfold pkg_WithName. keeps_live_steps.
  - unfold pkg_WithValues. keeps_live_steps.
  - unfold pkg_WithContext. keeps_live_steps.
  - unfold pkg_log. keeps_live_steps.
Qed.

Lemma reachable_live (st : State) : reachable st -> all_live st.
Proof.
  induction 1 as [|st st' o _ IH He].
  - split; [by intros b bl|by intros d].
  - by eapply exec_all_live.
Qed.

Lemma all_live_logger_at (st : State) (b : loc) :
  all_live st -> is_Some (bases st !! b) -> is_Some (logger_at st b).
Proof.
  intros [Hb _] [bl Hbl]. unfold logger_at. rewrite Hbl. simpl. by eapply Hb.
Qed.

(** X16: in every store the package's calls can reach, each
    [*baseLogger] wraps a [*zap.Logger] that is there and the default,
    when set, is there too; so no method of a logger the package handed
    out panics, and neither do the package-level functions. *)
Theorem reachable_all_live (st : State) :
  reachable st ->
  all_live st
  /\ (forall b, is_Some (bases st !! b) ->
        (forall lvl msg fields, is_Some (log_at lvl b msg fields st))
        /\ (forall name, is_Some (WithName b name st))
        /\ (forall kvs, is_Some (WithValues b kvs st))
        /\ (forall k, is_Some (AddCallerSkip b k st))
        /\ (forall ctx, is_Some (WithContext b ctx st)))
  /\ (forall lvl msg fields, is_Some (pkg_log lvl msg fields st))
  /\ (forall ctx, is_Some (pkg_WithContext ctx st)).
Proof.
  intros Hr. pose proof (reachable_live st Hr) as Hl. split; [done|].
  assert (Hctx : forall st0 b ctx, is_Some (WithContext b ctx st0)).
  { intros st0 b [c|]; [|by eexists]. rewrite WithContext_eq.
    by destruct (as_Logger _). }
  split_and!.
  - intros b Hb. destruct (all_live_logger_at st b Hl Hb) as [zl Hzl].
    split_and!.
    + intros lvl msg fields.
      by destruct (log_at_spec st b zl lvl msg fields Hzl) as (? & -> & _).
    + intros name.
      by destruct (WithName_spec st b zl name Hzl) as (? & ? & -> & _).
    + intros kvs.
      by destruct (WithValues_spec st b zl kvs Hzl) as (? & ? & -> & _).
    + intros k.
      by destruct (AddCallerSkip_spec st b zl k Hzl) as (? & ? & -> & _).
    + apply Hctx.
  - intros lvl msg fields.
    destruct (defaultLogger_plain st (reachable_default_plain st Hr))
      as (d & zl & st1 & Hd & _ & Hzl & _).
    unfold pkg_log. rewrite (bind_eq _ _ _ _ _ Hd). simpl.
    by destruct (log_at_spec st1 d zl lvl msg fields Hzl) as (? & -> & _).
  - intros ctx. destruct (defaultLogger_spec st) as (d & st1 & Hd & _).
    unfold pkg_WithContext. rewrite (bind_eq _ _ _ _ _ Hd). simpl.
    apply Hctx.
Qed.


(** ** Emitting *)

Lemma New_sets_default_store (opts : Config) (st : State) :
  exists b st1,
    New opts st = Some ((config_after opts, Some b), st1)
    /\ logger_at st1 b = Some (snd (Zap opts))
    /\ written st1 = written st.
Proof.
  eexists _, _. split; [apply New_eq|]. split; [apply logger_at_snoc|done].
Qed.

(** X17: through a logger fresh from [New] on a single-file
    configuration, an emission at or above the configured minimum level
    appends exactly one record to the output, on the configured file
    (and standard output when mirrored), with the message, the level and
    the fields of the call, no logger name, and a stack trace from the
    stack-trace threshold upwards; an emission below the minimum appends
    nothing. *)
Theorem New_then_log (opts : Config) (st : State) (lvl : zapcore.Level)
    (msg : string) (fields : list zap.Field) :
  FilePerLevel opts = false ->
  exists b st1 st2 ws,
    New opts st = Some ((config_after opts, Some b), st1)
    /\ log_at lvl b msg fields st1 = Some (ws, st2)
    /\ written st2 = written st ++ ws
    /\ ws = if (logLevel (LogLevel opts) <=? lvl)%Z
            then [record_of opts (LogFile opts) lvl msg fields]
            else [].
Proof.
  intros Hsingle.
  destruct (New_sets_default_store opts st) as (b & st1 & HN & Hzl & Hw).
  destruct (log_at_spec st1 b _ lvl msg fields Hzl) as (st2 & He & _ & Hw2).
  eexists b, st1, st2, _. split; [exact HN|]. split; [exact He|].
  split; [by rewrite Hw2, Hw|].
  unfold zap.write. rewrite Zap_logger, Hsingle.
  cbn [zap.core zap.name zap.addStack].
  rewrite filter_cons, filter_nil. unfold record_of, out_for, hook_for, core_for.
  cbn [zapcore.level zapcore.Enabled zapcore.enc zapcore.context zapcore.out].
  destruct (String.eqb (LogFile opts) "");
    destruct (Z.leb_spec (logLevel (LogLevel opts)) lvl);
    case_decide; try done.
Qed.

(** ** Contexts, continued *)

(** X18: binding a logger under LoggerKey shadows whatever the context
    held before; bindings under any other key (another string, or a key
    of another type) are not seen; and [WithContext] never panics and
    never changes the store. *)
Theorem WithContext_bindings (st : State) (b : loc) (c : list (iface * iface)) :
  (forall p, WithContext b (context.WithValue c (VString LoggerKey) (VLogger p)) st
             = Some (Some p, st))
  /\ (forall k v, context.key_is LoggerKey k = false ->
        WithContext b (context.WithValue c k v) st = WithContext b (Some c) st)
  /\ (forall ctx, exists lg, WithContext b ctx st = Some (lg, st)).
Proof.
  split_and!.
  - intros p. unfold context.WithValue. by rewrite WithContext_eq.
  - intros k v Hk. unfold context.WithValue. rewrite !WithContext_eq.
    simpl. by rewrite Hk.
  - intros [c'|]; [|by eexists]. rewrite WithContext_eq.
    destruct (as_Logger _); by eexists.
Qed.



(** ** File names *)

(** X20: a core asked for with the empty file name writes to the
    configured LogFile, exactly as if that name had been passed; in both
    cases the call leaves the directory filled in from LOG_DIR when none
    was configured, and touches no other field. *)
Theorem NewZapCore_empty_file (opts : Config) (level : zapcore.LevelEnabler) :
  NewZapCore opts "" level = NewZapCore opts (LogFile opts) level
  /\ core_files (snd (NewZapCore opts "" level))
     = [filepath_Join (effective_dir opts) (LogFile opts)]
  /\ fst (NewZapCore opts "" level) = set_LogDir (effective_dir opts) opts.
Proof.
  rewrite !NewZapCore_eq. cbn [fst snd]. split_and!.
  - f_equal. unfold core_for. cbn [String.eqb].
    by destruct (String.eqb (LogFile opts) "").
  - by rewrite core_for_files.
  - unfold fill_dir, effective_dir, set_LogDir.
    destruct (String.eqb (LogDir opts) ""); [done|]. by destruct opts.
Qed.

End log.

(** * Examples: the properties at concrete inputs *)



Lemma Zap_FilePerLevel_sinks_witness :
  sink_table (snd (Zap example_lower example_Join example_Getenv example_split))
    zapcore.FatalLevel
  = [(["/var/log/debug.log"], false); (["/var/log/info.log"], false);
     (["/var/log/warn.log"], false); (["/var/log/error.log"], true)]
  /\ sink_table (snd (Zap example_lower example_Join example_Getenv example_split))
       zapcore.InfoLevel
     = [(["/var/log/debug.log"], false); (["/var/log/info.log"], true);
        (["/var/log/warn.log"], false); (["/var/log/error.log"], false)].
Proof.
  split.
  - apply (Zap_FilePerLevel_sinks example_lower example_Join example_Getenv
             example_split zapcore.FatalLevel eq_refl).
    discriminate.
  - apply (Zap_FilePerLevel_sinks example_lower example_Join example_Getenv
             example_split zapcore.InfoLevel eq_refl).
    reflexivity.
Defined.

Lemma Zap_single_sink_witness :
  exists c : zapcore.Core,
    zap.core (snd (Zap example_lower example_Join example_Getenv example_single))
    = [c]
    /\ core_files c = ["/data/logs/app.log"]
    /\ zapcore.Enabled (zapcore.level c) zapcore.InfoLevel = false
    /\ zapcore.Enabled (zapcore.level c) zapcore.ErrorLevel = true.
Proof.
  destruct (Zap_single_sink example_lower example_Join example_Getenv
              example_single eq_refl) as (c & Hc & Hf & He).
  exists c. split; [exact Hc|]. split; [exact Hf|]. split.
  - destruct (zapcore.Enabled (zapcore.level c) zapcore.InfoLevel) eqn:Hi;
      [|reflexivity].
    apply He in Hi. exfalso. revert Hi. vm_compute. intros Hi. by apply Hi.
  - apply He. discriminate.
Defined.

(** C5 as stated fails: a configuration with no stack-trace threshold and
    no directory comes back from the construction with both filled in. *)
Lemma Zap_changes_config :
  StacktraceLevel example_split = "" /\ LogDir example_split = ""
  /\ (forall lower join getenv,
        StacktraceLevel (fst (Zap lower join getenv example_split)) = "error")
  /\ LogDir (fst (Zap example_lower example_Join example_Getenv example_split))
     = "/var/log"
  /\ (forall lower join getenv,
        fst (Zap lower join getenv example_split) <> example_split).
Proof.
  split_and!; try done.
  - intros lower join getenv. by rewrite Zap_config.
  - intros lower join getenv. rewrite Zap_config.
    intros H. apply (f_equal StacktraceLevel) in H. discriminate H.
Qed.

Lemma derive_child_frame_witness :
  exists child st',
    WithName 0 "db" example_state = Some (Some child, st')
    /\ child <> 0
    /\ bound_name st' (Some child) = Some "root.db"
    /\ bound_name st' (Some 0) = Some "root"
    /\ fst <$> log_at zapcore.InfoLevel 0 "hello" [] st'
       = fst <$> log_at zapcore.InfoLevel 0 "hello" [] example_state.
Proof.
  destruct (derive_child_frame example_state 0 example_logger "db" [] eq_refl)
    as ((child & st' & He & Hne & _ & Hb & Hn & Hemit) & _ & Hbefore).
  exists child, st'. split; [exact He|]. split; [exact Hne|].
  split; [exact Hn|]. split.
  - unfold bound_name. simpl. by rewrite Hb.
  - rewrite Hemit. symmetry. apply Hbefore.
Defined.

Lemma WithContext_lookup_witness :
  WithContext 0 (context.WithValue [] (VString LoggerKey) (VLogger 7))
    example_state = Some (Some 7, example_state)
  /\ WithContext 0 context.Background example_state
     = Some (Some 0, example_state)
  /\ WithContext 0 (context.WithValue [] (VString LoggerKey) (VInt 1))
       example_state = Some (Some 0, example_state).
Proof.
  pose proof (WithContext_lookup example_lower example_Join example_Getenv
                example_state 0) as H.
  split; [|split].
  - destruct (H [(VString LoggerKey, VLogger 7)]) as (_ & _ & Hp & _).
    by apply Hp.
  - destruct (H []) as (Habsent & _). apply Habsent. intros k v [].
  - destruct (H [(VString LoggerKey, VInt 1)]) as (_ & Hother & _).
    by apply Hother.
Defined.

Lemma Zap_default_stacktrace_witness :
  zap.addStack (snd (Zap example_lower example_Join example_Getenv example_split))
  = zapcore.AtomicLevel zapcore.ErrorLevel.
Proof.
  destruct (Zap_default_stacktrace example_lower example_Join example_Getenv
              example_split eq_refl) as (Hs & He & _).
  rewrite Hs. by rewrite He.
Defined.

Lemma pkg_WithValues_no_fields_witness :
  exists child st' fs,
    pkg_WithValues example_lower example_Join example_Getenv
      [VString "requestId"; VInt 42] init_state = Some (Some child, st')
    /\ bound_fields st' (Some child) = Some fs
    /\ Forall (fun f => f = []) fs.
Proof.
  apply (pkg_WithValues_no_fields example_lower example_Join example_Getenv
           init_state [VString "requestId"; VInt 42]
           (reachable_init example_lower example_Join example_Getenv)).
Defined.

(** * Examples: the further properties at concrete inputs *)

Lemma handleFields_positions_witness :
  [VString "a"; VInt 1; VString "b"; VInt 2] !! 2 = Some (VString "b")
  /\ [VString "a"; VInt 1; VString "b"; VInt 2] !! 3 = Some (VInt 2).
Proof.
  exact (handleFields_positions [VString "a"; VInt 1; VString "b"; VInt 2] 1
           (zap.Any "b" (VInt 2)) eq_refl).
Defined.

Lemma handleFields_round_trip_witness :
  handleFields (alternate [("a", VInt 1)] ++ VInt 5 :: [VString "x"]) []
  = [zap.Any "a" (VInt 1)].
Proof.
  destruct (handleFields_round_trip [("a", VInt 1)]) as (_ & _ & H).
  exact (H (VInt 5) [VString "x"] eq_refl).
Defined.

Lemma logLevel_equal_fold_witness :
  logLevel example_lower "WaRn" = logLevel example_lower "warn".
Proof.
  exact (logLevel_equal_fold example_lower "WaRn" "warn" eq_refl eq_refl).
Defined.

Lemma Zap_sinks_settings_witness :
  zapcore.enc (core_for example_Join example_Getenv example_split "info.log"
                 infoPriority) = zapcore.JSONEncoder.
Proof.
  refine (proj1 (Zap_sinks_settings example_lower example_Join example_Getenv
                   example_split _ _)).
  right. left. reflexivity.
Defined.

Lemma Zap_split_exactly_one_witness :
  zap.write (snd (Zap example_lower example_Join example_Getenv example_split))
    zapcore.FatalLevel "boom" []
  = [record_of example_lower example_Join example_Getenv example_split
       "error.log" zapcore.FatalLevel "boom" []].
Proof.
  apply (Zap_split_exactly_one example_lower example_Join example_Getenv
           example_split zapcore.FatalLevel "boom" [] eq_refl).
  discriminate.
Defined.

Lemma Zap_split_ignores_LogLevel_witness :
  snd (Zap example_lower example_Join example_Getenv
         (set_LogLevel "fatal" example_split))
  = snd (Zap example_lower example_Join example_Getenv example_split).
Proof.
  exact (Zap_split_ignores_LogLevel example_lower example_Join example_Getenv
           example_split "fatal" eq_refl).
Defined.

Lemma Zap_stacktrace_threshold_witness :
  zap.w_stack (record_of example_lower example_Join example_Getenv example_split
                 "error.log" zapcore.FatalLevel "boom" []) = true.
Proof.
  refine (proj2 (proj1 (Zap_stacktrace_threshold example_lower example_Join
                          example_Getenv example_split zapcore.FatalLevel
                          "boom" [] _ _)) _).
  - left. reflexivity.
  - discriminate.
Defined.





Lemma defaultLogger_lazy_witness :
  exists d st1,
    defaultLogger example_lower example_Join example_Getenv init_state
    = Some (Some d, st1)
    /\ defaultLogger example_lower example_Join example_Getenv st1
       = Some (Some d, st1)
    /\ exists zl, logger_at st1 d = Some zl
         /\ zap.addStack zl = zapcore.AtomicLevel zapcore.ErrorLevel.
Proof.
  destruct (defaultLogger_lazy example_lower example_Join example_Getenv
              init_state) as (d & st1 & H1 & H2 & _ & Hnew).
  exists d, st1. split; [exact H1|]. split; [exact H2|].
  destruct (Hnew eq_refl) as (zl & Hzl & _ & _ & Hs & _).
  exists zl. split; [exact Hzl|exact Hs].
Defined.

Lemma reachable_all_live_witness :
  is_Some (pkg_log example_lower example_Join example_Getenv
             zapcore.InfoLevel "hello" [] init_state).
Proof.
  destruct (reachable_all_live example_lower example_Join example_Getenv
              init_state
              (reachable_init example_lower example_Join example_Getenv))
    as (_ & _ & H & _).
  exact (H zapcore.InfoLevel "hello" []).
Defined.

Lemma New_then_log_witness :
  exists b st1 st2,
    New example_lower example_Join example_Getenv example_single init_state
    = Some ((config_after example_Getenv example_single, Some b), st1)
    /\ log_at zapcore.InfoLevel b "hello" [] st1 = Some ([], st2)
    /\ written st2 = [].
Proof.
  destruct (New_then_log example_lower example_Join example_Getenv
              example_single init_state zapcore.InfoLevel "hello" [] eq_refl)
    as (b & st1 & st2 & ws & HN & Hl & Hw & Hws).
  exists b, st1, st2. split; [exact HN|].
  assert (E : ws = []) by exact Hws.
  rewrite E in Hl, Hw. split; [exact Hl|exact Hw].
Defined.

Lemma WithContext_bindings_witness :
  WithContext 0
    (context.WithValue [(VString LoggerKey, VLogger 1)] (VString "user")
       (VLogger 9)) example_state
  = WithContext 0 (Some [(VString LoggerKey, VLogger 1)]) example_state.
Proof.
  destruct (WithContext_bindings example_state 0
              [(VString LoggerKey, VLogger 1)]) as (_ & H & _).
  exact (H (VString "user") (VLogger 9) eq_refl).
Defined.

